(** * Quadtree image codec (src/img/main.cpp): model and properties

    The development embeds the pixel grid, the padding and cropping
    operations, the uniformity test, the recursive encoder and the decoder of
    [src/img/main.cpp], and states the properties of the codec on that
    embedding.

    Conventions of the embedding.
    - A C++ [int] is a [Z].  Signed overflow is undefined in C++; the model
      computes in unbounded [Z], which agrees with the program on every run in
      which no [int] operation overflows.  For 8-bit channels, which is what
      the loader supplies, none does ([distanceSquared_int_exact],
      [isUniform_arith_fits_int]); the theorems whose conclusion depends on
      the answer of the uniformity test are stated for such pixels
      ([pixels_ok], [channel_ok]).
    - A [std::vector] is a [list]; [v[i]] with [i] outside [0, size) is
      undefined behaviour and is the failure [OutOfRange] in the model.
    - A [std::vector] constructed with a negative [int] length throws
      [std::length_error]: the failure [BadLength].
    - Loops are unrolled by a counter; the recursion of [Encode], which is on
      the integer [size], carries a fuel argument and [NoFuel] is shown never
      to be returned. *)

From Stdlib Require Import ZArith Lia Bool.
From stdpp Require Import base list.

Local Open Scope Z_scope.

(** ** Failures and the error monad *)

Inductive failure : Type :=
| OutOfRange   (* subscript outside a vector: undefined behaviour *)
| BadLength    (* vector constructed with a negative length *)
| NoFuel.      (* the model's recursion budget ran out *)

Inductive outcome (A : Type) : Type :=
| Ok (a : A)
| Fail (e : failure).

Arguments Ok {A} a.
Arguments Fail {A} e.

Definition bind {A B : Type} (c : outcome A) (k : A -> outcome B) : outcome B :=
  match c with
  | Ok a => k a
  | Fail e => Fail e
  end.

Notation "'let*' x ':=' c 'in' k" := (bind c (fun x => k))
  (at level 10, x name, c at level 100, k at level 200).

(** ** Colors, grids and images *)

Record Color : Type := mkColor { r : Z; g : Z; b : Z }.

(** [Color::operator==] *)
Definition Color_eqb (a c : Color) : bool :=
  (r a =? r c) && (g a =? g c) && (b a =? b c).

(** The value-initialised [Color], also written [{0, 0, 0}] in [Resize]. *)
Definition black : Color := mkColor 0 0 0.

(** [std::vector<std::vector<Color>>], row-major: [img[y]] is row [y]. *)
Abbreviation Grid := (list (list Color)).

Record Image : Type := mkImage { data : Grid; w_ : Z; h_ : Z }.

(** [v[i]] read and [v[i] = a] for a vector and an [int] subscript. *)
Definition vec_at {A : Type} (v : list A) (i : Z) : outcome A :=
  if i <? 0 then Fail OutOfRange
  else match v !! Z.to_nat i with
       | Some a => Ok a
       | None => Fail OutOfRange
       end.

Definition vec_set {A : Type} (v : list A) (i : Z) (a : A) : outcome (list A) :=
  if (i <? 0) || (Z.of_nat (length v) <=? i) then Fail OutOfRange
  else Ok (<[Z.to_nat i := a]> v).

(** [img[y][x]] read, and [img[y][x] = c]. *)
Definition get (img : Grid) (x y : Z) : outcome Color :=
  let* row := vec_at img y in vec_at row x.

Definition put (img : Grid) (x y : Z) (c : Color) : outcome Grid :=
  let* row := vec_at img y in
  let* row' := vec_set row x c in
  vec_set img y row'.

(** [Image::Image()] *)
Definition Image_default : Image := mkImage [] 0 0.

(** [Image::Image(int width, int height)]: [height] rows of [width]
    value-initialised colors. *)
Definition Image_new (width height : Z) : outcome Image :=
  if (width <? 0) || (height <? 0) then Fail BadLength
  else Ok (mkImage (replicate (Z.to_nat height) (replicate (Z.to_nat width) black))
                   width height).

(** [Image::width] and [Image::height] *)
Definition width (img : Image) : Z :=
  match data img with
  | [] => 0
  | row :: _ => Z.of_nat (length row)
  end.

Definition height (img : Image) : Z := Z.of_nat (length (data img)).

(** [Image::at] *)
Definition at_ (img : Image) (x y : Z) : outcome Color := get (data img) x y.

Definition set_at (img : Image) (x y : Z) (c : Color) : outcome Image :=
  let* d := put (data img) x y c in Ok (mkImage d (w_ img) (h_ img)).

(** ** Loops *)

(** [n] iterations of a loop body from index [i] upwards, threading the
    state. *)
Fixpoint for_iter {S : Type} (i : Z) (n : nat) (body : Z -> S -> outcome S) (s : S)
  : outcome S :=
  match n with
  | O => Ok s
  | Datatypes.S n' => let* s' := body i s in for_iter (i + 1) n' body s'
  end.

(** [for (int i = lo; i < hi; ++i) body] *)
Definition for_range {S : Type} (lo hi : Z) (body : Z -> S -> outcome S) (s : S)
  : outcome S :=
  for_iter lo (Z.to_nat (hi - lo)) body s.

(** The same loop for a body that may [return] a value from the enclosing
    function: [Some v] stops the loop with [v]. *)
Fixpoint find_iter {R : Type} (i : Z) (n : nat) (body : Z -> outcome (option R))
  : outcome (option R) :=
  match n with
  | O => Ok None
  | Datatypes.S n' =>
      let* o := body i in
      match o with
      | Some v => Ok (Some v)
      | None => find_iter (i + 1) n' body
      end
  end.

Definition find_range {R : Type} (lo hi : Z) (body : Z -> outcome (option R))
  : outcome (option R) :=
  find_iter lo (Z.to_nat (hi - lo)) body.

(** ** Pixel grid operations *)

(** [Image::Resize] *)
Definition Resize (this : Image) (w h : Z) : outcome Image :=
  let* trimmed := Image_new w h in
  for_range 0 h (fun y t =>
    for_range 0 w (fun x t =>
      if (x <? w_ this) && (y <? h_ this)
      then let* c := at_ this x y in set_at t x y c
      else set_at t x y black) t) trimmed.

(** [IsPowerOfTwo] *)
Definition IsPowerOfTwo (x : Z) : bool :=
  (0 <? x) && (Z.land x (x - 1) =? 0).

(** [IsValidImageSize] *)
Definition IsValidImageSize (img : Image) : bool :=
  (width img =? height img) && IsPowerOfTwo (width img).

(** [while (size < m) size *= 2;] with an iteration budget. *)
Fixpoint double_until (fuel : nat) (size m : Z) : outcome Z :=
  if size <? m then
    match fuel with
    | O => Fail NoFuel
    | Datatypes.S f => double_until f (size * 2) m
    end
  else Ok size.

(** [PadToSquare] *)
Definition PadToSquare (input : Image) : outcome Image :=
  let h := height input in
  let w := width input in
  let* size := double_until (Z.to_nat (Z.max w h)) 1 (Z.max w h) in
  let* padded := Image_new size size in
  let padded := mkImage (data padded) w h in
  for_range 0 h (fun y p =>
    for_range 0 w (fun x p =>
      let* c := at_ input x y in set_at p x y c) p) padded.

(** ** The region quadtree *)

(** Modelled from the spec: [quadtree.h] ([QuadTree<T>], [QuadLeaf<T>],
    [QuadNode<T>] and the direction constants [NW], [NE], [SE], [SW]) is
    included by [main.cpp] but is not among the sources.  Following the data
    model of the specification, a node is either a leaf holding one color or
    an internal node owning exactly four children, ordered NW, NE, SE, SW;
    [QuadNode]'s constructor takes the children in that order. *)
Inductive QuadTree : Type :=
| QuadLeaf (value : Color)
| QuadNode (nw ne se sw : QuadTree).

Inductive direction : Type := NW | NE | SE | SW.

Definition isLeaf (node : QuadTree) : bool :=
  match node with
  | QuadLeaf _ => true
  | QuadNode _ _ _ _ => false
  end.

Definition value (node : QuadTree) : option Color :=
  match node with
  | QuadLeaf c => Some c
  | QuadNode _ _ _ _ => None
  end.

Definition son (node : QuadTree) (d : direction) : option QuadTree :=
  match node with
  | QuadLeaf _ => None
  | QuadNode nw ne se sw =>
      Some match d with NW => nw | NE => ne | SE => se | SW => sw end
  end.

(** ** Encoder *)

(** The quantity [dr * dr + dg * dg + db * db] of [isUniform].  The source
    computes it in [int]: the value below is the source's whenever no
    product or sum leaves the range of [int], which is the case for channels
    in 0..255 ([distanceSquared_int_exact]); the properties that depend on
    the answer of the uniformity test are stated for such pixels. *)
Definition distanceSquared (ref c : Color) : Z :=
  let dr := r ref - r c in
  let dg := g ref - g c in
  let db := b ref - b c in
  dr * dr + dg * dg + db * db.

(** [isUniform]; [return false] leaves both loops. *)
Definition isUniform (img : Grid) (x y size tolerance : Z) : outcome bool :=
  let* ref := get img x y in
  let* o := find_range y (y + size) (fun j =>
         find_range x (x + size) (fun i =>
           let* c := get img i j in
           if distanceSquared ref c >? tolerance * tolerance
           then Ok (Some false)
           else Ok None)) in
  Ok (match o with Some v => v | None => true end).

(** The default argument [tolerance = 10] of [isUniform], the only one
    [Encode] ever uses. *)
Definition default_tolerance : Z := 10.

(** [Encode].  [size / 2] on [int] truncates towards zero: [Z.quot]. *)
Fixpoint Encode_fuel (fuel : nat) (img : Grid) (x y size : Z) : outcome QuadTree :=
  match fuel with
  | O => Fail NoFuel
  | Datatypes.S f =>
      let* u := isUniform img x y size default_tolerance in
      if u then let* c := get img x y in Ok (QuadLeaf c)
      else
        let half := Z.quot size 2 in
        let* t1 := Encode_fuel f img x y half in
        let* t2 := Encode_fuel f img (x + half) y half in
        let* t3 := Encode_fuel f img (x + half) (y + half) half in
        let* t4 := Encode_fuel f img x (y + half) half in
        Ok (QuadNode t1 t2 t3 t4)
  end.

Definition Encode (img : Grid) (x y size : Z) : outcome QuadTree :=
  Encode_fuel (Datatypes.S (Z.to_nat size)) img x y size.

(** [Encode] with the argument of [isUniform] that it leaves to the default
    written out.  The source has a single encoder, at tolerance 10:
    [Encode_tol_default] shows that [Encode] is this function at
    [default_tolerance].  The other values of [tolerance] are those
    [isUniform] accepts. *)
Fixpoint Encode_tol_fuel (tolerance : Z) (fuel : nat) (img : Grid) (x y size : Z)
  : outcome QuadTree :=
  match fuel with
  | O => Fail NoFuel
  | Datatypes.S f =>
      let* u := isUniform img x y size tolerance in
      if u then let* c := get img x y in Ok (QuadLeaf c)
      else
        let half := Z.quot size 2 in
        let* t1 := Encode_tol_fuel tolerance f img x y half in
        let* t2 := Encode_tol_fuel tolerance f img (x + half) y half in
        let* t3 := Encode_tol_fuel tolerance f img (x + half) (y + half) half in
        let* t4 := Encode_tol_fuel tolerance f img x (y + half) half in
        Ok (QuadNode t1 t2 t3 t4)
  end.

Definition Encode_tol (tolerance : Z) (img : Grid) (x y size : Z) : outcome QuadTree :=
  Encode_tol_fuel tolerance (Datatypes.S (Z.to_nat size)) img x y size.

(** ** Decoder *)

(** The leaf case of [Decode]: the two nested loops writing [c]. *)
Definition fill (img : Grid) (c : Color) (x y size : Z) : outcome Grid :=
  for_range y (y + size) (fun j img =>
    for_range x (x + size) (fun i img => put img i j c) img) img.

(** [Decode] *)
Fixpoint Decode (img : Grid) (node : QuadTree) (x y size : Z) : outcome Grid :=
  match node with
  | QuadLeaf c => fill img c x y size
  | QuadNode nw ne se sw =>
      let half := Z.quot size 2 in
      let* img1 := Decode img nw x y half in
      let* img2 := Decode img1 ne (x + half) y half in
      let* img3 := Decode img2 se (x + half) (y + half) half in
      Decode img3 sw x (y + half) half
  end.

(** ** The pixel buffers of the loader and the writer, and the driver *)

(** An [unsigned char] buffer is a list of integers in [0, 256); storing an
    [int] into an [unsigned char] keeps it modulo 256. *)
Definition to_uchar (z : Z) : Z := z mod 256.

(** [ReadImage] after [stbi_load] has returned a non-null buffer [data]
    together with [width] and [height]: the image built from the buffer.
    The call of [stbi_load] itself, the null check and [stbi_image_free] are
    outside the model. *)
Definition ReadImage_pixels (data : list Z) (width height : Z) : outcome Image :=
  let* img := Image_new width height in
  for_range 0 height (fun y img =>
    for_range 0 width (fun x img =>
      let i := (y * width + x) * 3 in
      let* cr := vec_at data i in
      let* cg := vec_at data (i + 1) in
      let* cb := vec_at data (i + 2) in
      set_at img x y (mkColor cr cg cb)) img) img.

(** [WriteImage] up to the call of [stbi_write_png]: the buffer [data] that
    is handed to it (with [img.width()] and [img.height()]). *)
Definition WriteImage_buffer (img : Image) : outcome (list Z) :=
  let width := width img in
  let height := height img in
  let data := replicate (Z.to_nat (width * height * 3)) 0 in
  for_range 0 height (fun y data =>
    for_range 0 width (fun x data =>
      let i := (y * width + x) * 3 in
      let* c1 := at_ img x y in
      let* data1 := vec_set data i (to_uchar (r c1)) in
      let* c2 := at_ img x y in
      let* data2 := vec_set data1 (i + 1) (to_uchar (g c2)) in
      let* c3 := at_ img x y in
      vec_set data2 (i + 2) (to_uchar (b c3))) data) data.

(** [ProcessImg] between [ReadImage] and [WriteImage], for a file whose
    extension is accepted: pad if needed, encode, decode into a fresh image,
    crop back if the image was padded. *)
Definition ProcessImg_body (img : Image) : outcome Image :=
  let originalW := width img in
  let originalH := height img in
  let* padded :=
    (if negb (IsValidImageSize img)
     then let* p := PadToSquare img in Ok (p, true)
     else Ok (img, false)) in
  let img := fst padded in
  let sizeChanged := snd padded in
  let* qt := Encode (data img) 0 0 (height img) in
  let* decoded := Image_new (height img) (height img) in
  let* d := Decode (data decoded) qt 0 0 (height decoded) in
  let decoded := mkImage d (w_ decoded) (h_ decoded) in
  if sizeChanged then Resize decoded originalW originalH else Ok decoded.

(** [ProcessImg] from the buffer that [stbi_load] returned to the buffer
    that [stbi_write_png] receives. *)
Definition ProcessImg_pixels (data : list Z) (width height : Z) : outcome (list Z) :=
  let* img := ReadImage_pixels data width height in
  let* decoded := ProcessImg_body img in
  WriteImage_buffer decoded.

(** * Vocabulary of the properties *)

(** A grid of [H] rows, each of [W] cells. *)
Definition rect (W H : Z) (img : Grid) : Prop :=
  Z.of_nat (length img) = H /\ Forall (fun row => Z.of_nat (length row) = W) img.

(** The cell [(i, j)] lies in the square of side [size] at [(x, y)]. *)
Definition in_region (x y size i j : Z) : Prop :=
  x <= i < x + size /\ y <= j < y + size.

(** The square of side [size] at [(x, y)] lies inside a [W] by [H] grid. *)
Definition fits (W H x y size : Z) : Prop :=
  0 <= x /\ 0 <= y /\ 0 <= size /\ x + size <= W /\ y + size <= H.

(** The color [Decode] leaves in cell [(i, j)], if it writes that cell at
    all: a function of the tree and the region only.  The quadrants are
    decoded in the order NW, NE, SE, SW, so the last write is SW's. *)
Fixpoint painted (node : QuadTree) (x y size i j : Z) : option Color :=
  match node with
  | QuadLeaf c => if decide (in_region x y size i j) then Some c else None
  | QuadNode nw ne se sw =>
      let half := Z.quot size 2 in
      match painted sw x (y + half) half i j with
      | Some c => Some c
      | None =>
          match painted se (x + half) (y + half) half i j with
          | Some c => Some c
          | None =>
              match painted ne (x + half) y half i j with
              | Some c => Some c
              | None => painted nw x y half i j
              end
          end
      end
  end.

(** The leaf of [node] whose block covers cell [(i, j)] when [node] stands
    for the square of side [size] at [(x, y)]: its depth below [node], the
    side of its block and its color.  Quadrants are tried in the order of
    [painted]. *)
Fixpoint leaf_at (node : QuadTree) (x y size i j : Z) : option (nat * Z * Color) :=
  match node with
  | QuadLeaf c => if decide (in_region x y size i j) then Some (O, size, c) else None
  | QuadNode nw ne se sw =>
      let half := Z.quot size 2 in
      let deeper (o : option (nat * Z * Color)) :=
        match o with Some (d, s, c) => Some (S d, s, c) | None => None end in
      match leaf_at sw x (y + half) half i j with
      | Some l => deeper (Some l)
      | None =>
          match leaf_at se (x + half) (y + half) half i j with
          | Some l => deeper (Some l)
          | None =>
              match leaf_at ne (x + half) y half i j with
              | Some l => deeper (Some l)
              | None => deeper (leaf_at nw x y half i j)
              end
          end
      end
  end.

(** Every pixel of the region is within [tolerance] of [ref]. *)
Definition within (img : Grid) (ref : Color) (tolerance x y size : Z) : Prop :=
  forall i j p, in_region x y size i j -> get img i j = Ok p ->
                distanceSquared ref p <= tolerance * tolerance.

(** The channels are 8-bit values, as the image loader supplies them. *)
Definition channel_ok (c : Color) : Prop :=
  0 <= r c <= 255 /\ 0 <= g c <= 255 /\ 0 <= b c <= 255.

(** Every pixel of the grid has 8-bit channels. *)
Definition pixels_ok (img : Grid) : Prop :=
  forall i j c, get img i j = Ok c -> channel_ok c.

(** A 32-bit two's complement [int] holding [z], and the quantity of
    [isUniform] with every product and sum reduced to such an [int]. *)
Definition int_wrap (z : Z) : Z := (z + 2 ^ 31) mod 2 ^ 32 - 2 ^ 31.

Definition distanceSquared_int (ref c : Color) : Z :=
  let dr := int_wrap (r ref - r c) in
  let dg := int_wrap (g ref - g c) in
  let db := int_wrap (b ref - b c) in
  int_wrap (int_wrap (int_wrap (dr * dr) + int_wrap (dg * dg)) + int_wrap (db * db)).

(** The block of side [2 * s] at [(a, b)], one of the blocks of that side
    into which the region at [(x, y)] is cut, contains both the cell
    [(i, j)] and the cell [(px, py)], in two different quadrants. *)
Definition splits (x y s a b i j px py : Z) : Prop :=
  (2 * s | a - x) /\ (2 * s | b - y) /\
  in_region a b (2 * s) i j /\ in_region a b (2 * s) px py /\
  ~ ((i < a + s <-> px < a + s) /\ (j < b + s <-> py < b + s)).

(** Any two pixels of the grid that the uniformity test of [Encode] cannot
    tell apart are the same color. *)
Definition separated (img : Grid) : Prop :=
  forall i j i' j' p q,
    get img i j = Ok p -> get img i' j' = Ok q ->
    distanceSquared p q <= default_tolerance * default_tolerance -> p = q.

(** All rows of the image have the length of the first one. *)
Definition rectangular (img : Image) : Prop :=
  rect (width img) (height img) (data img).

(** The recorded dimensions [w_], [h_] of the image lie within its data. *)
Definition recorded_ok (img : Image) : Prop :=
  exists Wd Hd, rect Wd Hd (data img) /\ w_ img <= Wd /\ h_ img <= Hd.

(** Every cell of the region other than [(px, py)] holds [c]. *)
Definition background (img : Grid) (c : Color) (px py x y size : Z) : Prop :=
  forall i j, in_region x y size i j -> (i, j) <> (px, py) -> get img i j = Ok c.

(** Sample colors and grids. *)
Definition near : Color := mkColor 1 0 0.
Definition far : Color := mkColor 200 0 0.

Definition grid_near : Grid := [[black; near]; [black; black]].
Definition grid_far : Grid := [[black; far]; [black; black]].
Definition target2 : Grid := [[near; near]; [near; near]].
Definition target3 : Grid := [[near; near; near]; [near; near; near]; [near; near; near]].
Definition tall : Image :=
  mkImage [[near; far; near]; [far; near; far]; [near; far; near];
           [far; near; far]; [near; far; near]] 3 5.
Definition wide : Image := mkImage [[near; near; near]; [far; far; far]] 3 2.

Ltac rect_tac := split; [reflexivity | repeat constructor].
Ltac fits_tac := unfold fits; simpl; lia.

(** The number of levels below the root, and the number of leaves. *)
Fixpoint tree_depth (node : QuadTree) : nat :=
  match node with
  | QuadLeaf _ => O
  | QuadNode nw ne se sw =>
      S (Nat.max (Nat.max (tree_depth nw) (tree_depth ne))
                 (Nat.max (tree_depth se) (tree_depth sw)))
  end.

Fixpoint leaf_count (node : QuadTree) : nat :=
  match node with
  | QuadLeaf _ => 1%nat
  | QuadNode nw ne se sw =>
      (leaf_count nw + leaf_count ne + leaf_count se + leaf_count sw)%nat
  end.

(** Every element of the buffer is an [unsigned char] value. *)
Definition bytes (data : list Z) : Prop := Forall (fun v => 0 <= v < 256) data.

(** The element of the buffer at an index, 0 outside the buffer. *)
Definition byte_at (data : list Z) (i : Z) : Z :=
  match vec_at data i with
  | Ok v => v
  | Fail _ => 0
  end.

(** Two grids hold the same thing at the corner of the region and at every
    cell of the region. *)
Definition agree_on (img1 img2 : Grid) (x y size : Z) : Prop :=
  get img1 x y = get img2 x y /\
  forall i j, in_region x y size i j -> get img1 i j = get img2 i j.

(** * Properties *)

(** ** Colors and tree accessors *)

Lemma Color_eqb_eq (a c : Color) : Color_eqb a c = true <-> a = c.
Proof.
  unfold Color_eqb. destruct a as [ra ga ba], c as [rc gc bc]. simpl.
  rewrite !andb_true_iff, !Z.eqb_eq. split.
  - intros [[-> ->] ->]. reflexivity.
  - intros [= -> -> ->]. auto.
Qed.

(** [Decode] written with the accessors the source calls: [isLeaf], [value]
    and [son]. *)
Lemma Decode_by_accessors (img : Grid) (node : QuadTree) (x y size : Z) :
  Decode img node x y size =
  if isLeaf node then
    match value node with
    | Some c => fill img c x y size
    | None => Fail OutOfRange
    end
  else
    match son node NW, son node NE, son node SE, son node SW with
    | Some nw, Some ne, Some se, Some sw =>
        let half := Z.quot size 2 in
        let* img1 := Decode img nw x y half in
        let* img2 := Decode img1 ne (x + half) y half in
        let* img3 := Decode img2 se (x + half) (y + half) half in
        Decode img3 sw x (y + half) half
    | _, _, _, _ => Fail OutOfRange
    end.
Proof. destruct node; reflexivity. Qed.

(** ** Vectors and grids *)

Lemma bind_Ok {A B : Type} (c : outcome A) (k : A -> outcome B) (v : B) :
  bind c k = Ok v <-> exists a, c = Ok a /\ k a = Ok v.
Proof.
  destruct c as [a|e]; simpl; split.
  - intros Hk. exists a. auto.
  - intros (a' & Ha & Hk). inversion Ha. subst. assumption.
  - discriminate.
  - intros (a' & Ha & _). discriminate.
Qed.

Lemma vec_at_Ok {A : Type} (v : list A) (i : Z) (a : A) :
  vec_at v i = Ok a <-> 0 <= i /\ v !! Z.to_nat i = Some a.
Proof.
  unfold vec_at. destruct (Z.ltb_spec i 0) as [Hneg|Hpos].
  - split; [discriminate | lia].
  - destruct (v !! Z.to_nat i) as [a'|]; split.
    + intros [= ->]. auto.
    + intros [_ [= ->]]. reflexivity.
    + discriminate.
    + intros [_ ?]. discriminate.
Qed.

Lemma vec_at_in_range {A : Type} (v : list A) (i : Z) :
  0 <= i < Z.of_nat (length v) -> exists a, vec_at v i = Ok a.
Proof.
  intros Hi. destruct (lookup_lt_is_Some_2 v (Z.to_nat i)) as [a Ha]; [lia|].
  exists a. apply vec_at_Ok. split; [lia | assumption].
Qed.

Lemma vec_at_range {A : Type} (v : list A) (i : Z) (a : A) :
  vec_at v i = Ok a -> 0 <= i < Z.of_nat (length v).
Proof.
  intros [Hi Hl]%vec_at_Ok. apply lookup_lt_Some in Hl. lia.
Qed.

Lemma vec_set_in_range {A : Type} (v : list A) (i : Z) (a : A) :
  0 <= i < Z.of_nat (length v) -> vec_set v i a = Ok (<[Z.to_nat i := a]> v).
Proof.
  intros Hi. unfold vec_set.
  destruct (Z.ltb_spec i 0); [lia|].
  destruct (Z.leb_spec (Z.of_nat (length v)) i); [lia|]. reflexivity.
Qed.

Lemma vec_at_set {A : Type} (v : list A) (i j : Z) (a : A) :
  0 <= i < Z.of_nat (length v) ->
  vec_at (<[Z.to_nat i := a]> v) j = if decide (j = i) then Ok a else vec_at v j.
Proof.
  intros Hi. destruct (decide (j = i)) as [->|Hne].
  - apply vec_at_Ok. split; [lia|]. apply list_lookup_insert_eq. lia.
  - unfold vec_at. destruct (Z.ltb_spec j 0); [reflexivity|].
    rewrite list_lookup_insert_ne by lia. reflexivity.
Qed.

Lemma rect_row (W H : Z) (img : Grid) (y : Z) (row : list Color) :
  rect W H img -> vec_at img y = Ok row -> Z.of_nat (length row) = W.
Proof.
  intros [_ Hall] [_ Hl]%vec_at_Ok.
  rewrite Forall_forall in Hall. apply Hall.
  apply list_elem_of_lookup. eauto.
Qed.

Lemma rect_get (W H : Z) (img : Grid) (x y : Z) :
  rect W H img -> 0 <= x < W -> 0 <= y < H -> exists c, get img x y = Ok c.
Proof.
  intros Hr Hx Hy. destruct (vec_at_in_range img y) as [row Hrow].
  { destruct Hr. lia. }
  pose proof (rect_row _ _ _ _ _ Hr Hrow) as Hlen.
  destruct (vec_at_in_range row x) as [c Hc]; [lia|].
  exists c. unfold get. rewrite Hrow. exact Hc.
Qed.

Lemma get_in_rect (W H : Z) (img : Grid) (x y : Z) (c : Color) :
  rect W H img -> get img x y = Ok c -> 0 <= x < W /\ 0 <= y < H.
Proof.
  intros Hr (row & Hrow & Hc)%bind_Ok.
  pose proof (rect_row _ _ _ _ _ Hr Hrow) as Hlen.
  apply vec_at_range in Hc. apply vec_at_range in Hrow. destruct Hr. lia.
Qed.

(** A successful write changes the written cell and nothing else. *)
Lemma put_spec (W H : Z) (img : Grid) (x y : Z) (c : Color) :
  rect W H img -> 0 <= x < W -> 0 <= y < H ->
  exists img', put img x y c = Ok img' /\ rect W H img' /\
    forall i j, get img' i j = if decide (i = x /\ j = y) then Ok c else get img i j.
Proof.
  intros Hr Hx Hy. destruct (vec_at_in_range img y) as [row Hrow].
  { destruct Hr. lia. }
  pose proof (rect_row _ _ _ _ _ Hr Hrow) as Hlen.
  assert (Hy' : 0 <= y < Z.of_nat (length img)) by (destruct Hr; lia).
  exists (<[Z.to_nat y := <[Z.to_nat x := c]> row]> img). split; [|split].
  - unfold put. rewrite Hrow. simpl.
    rewrite vec_set_in_range by lia. simpl. apply vec_set_in_range. lia.
  - destruct Hr as [HH Hall]. split.
    + rewrite length_insert. exact HH.
    + apply Forall_insert; [assumption|]. cbv beta. rewrite length_insert. exact Hlen.
  - intros i j. unfold get. rewrite vec_at_set by lia.
    destruct (decide (j = y)) as [->|Hj]; simpl.
    + rewrite vec_at_set by lia. rewrite Hrow. simpl.
      destruct (decide (i = x)) as [->|Hi].
      * rewrite decide_True by auto. reflexivity.
      * rewrite decide_False by (intros [? _]; auto). reflexivity.
    + rewrite decide_False by (intros [_ ?]; auto). reflexivity.
Qed.

(** Two grids of the same shape with the same cells are equal. *)
Lemma rect_ext (W H : Z) (g1 g2 : Grid) :
  rect W H g1 -> rect W H g2 ->
  (forall i j, 0 <= i < W -> 0 <= j < H -> get g1 i j = get g2 i j) ->
  g1 = g2.
Proof.
  intros Hr1 Hr2 Hcells. apply list_eq. intros n.
  destruct (decide (n < length g1)%nat) as [Hn|Hn].
  - destruct (lookup_lt_is_Some_2 g1 n Hn) as [row1 H1].
    destruct (lookup_lt_is_Some_2 g2 n) as [row2 H2].
    { destruct Hr1, Hr2. lia. }
    rewrite H1, H2. f_equal.
    assert (Hv1 : vec_at g1 (Z.of_nat n) = Ok row1).
    { apply vec_at_Ok. rewrite Nat2Z.id. split; [lia | assumption]. }
    assert (Hv2 : vec_at g2 (Z.of_nat n) = Ok row2).
    { apply vec_at_Ok. rewrite Nat2Z.id. split; [lia | assumption]. }
    pose proof (rect_row _ _ _ _ _ Hr1 Hv1) as Hl1.
    pose proof (rect_row _ _ _ _ _ Hr2 Hv2) as Hl2.
    apply list_eq. intros m.
    destruct (decide (m < length row1)%nat) as [Hm|Hm].
    + specialize (Hcells (Z.of_nat m) (Z.of_nat n)).
      unfold get in Hcells. rewrite Hv1, Hv2 in Hcells. simpl in Hcells.
      destruct (lookup_lt_is_Some_2 row1 m Hm) as [a1 Ha1].
      destruct (lookup_lt_is_Some_2 row2 m) as [a2 Ha2]; [lia|].
      assert (Hc1 : vec_at row1 (Z.of_nat m) = Ok a1).
      { apply vec_at_Ok. rewrite Nat2Z.id. split; [lia | assumption]. }
      assert (Hc2 : vec_at row2 (Z.of_nat m) = Ok a2).
      { apply vec_at_Ok. rewrite Nat2Z.id. split; [lia | assumption]. }
      rewrite Hc1, Hc2 in Hcells. rewrite Ha1, Ha2.
      destruct Hr1. f_equal. assert (Ok a1 = Ok a2) as [= ->]; [|reflexivity].
      apply Hcells; lia.
    + rewrite !lookup_ge_None_2 by lia. reflexivity.
  - destruct Hr1, Hr2. rewrite !lookup_ge_None_2 by lia. reflexivity.
Qed.

(** ** Loop rules *)

(** Invariant rule for a counted loop whose body cannot fail under the
    invariant. *)
Lemma for_iter_inv {S : Type} (Inv : Z -> S -> Prop) (body : Z -> S -> outcome S)
    (n : nat) (lo : Z) (s : S) :
  Inv lo s ->
  (forall i t, lo <= i < lo + Z.of_nat n -> Inv i t ->
     exists t', body i t = Ok t' /\ Inv (i + 1) t') ->
  exists s', for_iter lo n body s = Ok s' /\ Inv (lo + Z.of_nat n) s'.
Proof.
  revert lo s. induction n as [|n IH]; intros lo s Hinv Hbody.
  - exists s. simpl. rewrite Z.add_0_r. auto.
  - destruct (Hbody lo s) as (t & Ht & Hinv'); [lia | assumption |].
    destruct (IH (lo + 1) t) as (s' & Hs' & Hfin); [assumption | |].
    { intros i u Hi Hu. apply Hbody; [lia | assumption]. }
    exists s'. simpl. rewrite Ht. simpl. split; [assumption|].
    replace (lo + Z.of_nat (Datatypes.S n)) with (lo + 1 + Z.of_nat n) by lia.
    assumption.
Qed.

Lemma for_range_inv {S : Type} (Inv : Z -> S -> Prop) (body : Z -> S -> outcome S)
    (lo hi : Z) (s : S) :
  lo <= hi ->
  Inv lo s ->
  (forall i t, lo <= i < hi -> Inv i t ->
     exists t', body i t = Ok t' /\ Inv (i + 1) t') ->
  exists s', for_range lo hi body s = Ok s' /\ Inv hi s'.
Proof.
  intros Hle Hinv Hbody. unfold for_range.
  destruct (for_iter_inv Inv body (Z.to_nat (hi - lo)) lo s) as (s' & Hs & Hfin).
  - assumption.
  - intros i t Hi. apply Hbody. lia.
  - exists s'. split; [assumption|].
    replace (lo + Z.of_nat (Z.to_nat (hi - lo))) with hi in Hfin by lia. assumption.
Qed.

(** An empty range runs no iteration. *)
Lemma for_range_empty {S : Type} (body : Z -> S -> outcome S) (lo hi : Z) (s : S) :
  hi <= lo -> for_range lo hi body s = Ok s.
Proof.
  intros Hle. unfold for_range. replace (Z.to_nat (hi - lo)) with O by lia. reflexivity.
Qed.

(** ** Regions and halving *)

Lemma half_bounds (size : Z) :
  0 <= size -> 0 <= Z.quot size 2 /\ 2 * Z.quot size 2 <= size < 2 * Z.quot size 2 + 2.
Proof.
  intros Hs. rewrite Z.quot_div_nonneg by lia.
  pose proof (Z.div_mod size 2 ltac:(lia)).
  pose proof (Z.mod_pos_bound size 2 ltac:(lia)). lia.
Qed.

Lemma half_pow2 (k : nat) : Z.quot (2 ^ Z.of_nat (S k)) 2 = 2 ^ Z.of_nat k.
Proof.
  rewrite Nat2Z.inj_succ, Z.pow_succ_r by lia.
  rewrite Z.mul_comm. apply Z.quot_mul. lia.
Qed.

Lemma pow2_pos (k : nat) : 1 <= 2 ^ Z.of_nat k.
Proof. pose proof (Z.pow_pos_nonneg 2 (Z.of_nat k)). lia. Qed.

Lemma fits_quadrants (W H x y size : Z) :
  fits W H x y size ->
  let half := Z.quot size 2 in
  fits W H x y half /\ fits W H (x + half) y half /\
  fits W H (x + half) (y + half) half /\ fits W H x (y + half) half.
Proof.
  intros (Hx & Hy & Hs & HW & HH). pose proof (half_bounds size Hs).
  unfold fits. cbv zeta. lia.
Qed.

(** ** The leaf case of the decoder *)

Lemma fill_spec (W H : Z) (img : Grid) (c : Color) (x y size : Z) :
  rect W H img -> fits W H x y size ->
  exists img', fill img c x y size = Ok img' /\ rect W H img' /\
    forall i j, get img' i j =
                if decide (in_region x y size i j) then Ok c else get img i j.
Proof.
  intros Hr (Hx & Hy & Hs & HW & HH). unfold fill.
  destruct (for_range_inv
    (fun j t => rect W H t /\
       forall a b, get t a b =
         if decide (x <= a < x + size /\ y <= b < j) then Ok c else get img a b)
    (fun j t => for_range x (x + size) (fun i t => put t i j c) t)
    y (y + size) img) as (img' & Hrun & Hr' & Hcells).
  - lia.
  - split; [assumption|]. intros a b0. rewrite decide_False by lia. reflexivity.
  - intros j t Hj [Hrt Ht].
    destruct (for_range_inv
      (fun i u => rect W H u /\
         forall a b, get u a b =
           if decide (x <= a < i /\ b = j) then Ok c else get t a b)
      (fun i u => put u i j c) x (x + size) t) as (u & Hu & Hru & Hcu).
    + lia.
    + split; [assumption|]. intros a b0. rewrite decide_False by lia. reflexivity.
    + intros i u Hi [Hru Hcu].
      destruct (put_spec W H u i j c Hru) as (u' & Hput & Hru' & Hcu'); [lia | lia |].
      exists u'. split; [assumption|]. split; [assumption|].
      intros a b0. rewrite Hcu', Hcu. repeat case_decide; try reflexivity; lia.
    + exists u. split; [assumption|]. split; [assumption|].
      intros a b0. rewrite Hcu, Ht. repeat case_decide; try reflexivity; lia.
  - exists img'. split; [assumption|]. split; [assumption|].
    intros i j. rewrite Hcells. unfold in_region.
    repeat case_decide; try reflexivity; lia.
Qed.

(** ** What the decoder writes *)

Lemma painted_in_region (node : QuadTree) (x y size i j : Z) (c : Color) :
  0 <= size -> painted node x y size i j = Some c -> in_region x y size i j.
Proof.
  revert x y size c. induction node as [v | nw IHnw ne IHne se IHse sw IHsw];
    intros x y size c Hs Hp; simpl in Hp.
  - case_decide; [assumption | discriminate].
  - pose proof (half_bounds size Hs) as Hh.
    destruct (painted sw x (y + Z.quot size 2) (Z.quot size 2) i j) eqn:Esw.
    { apply IHsw in Esw; [|lia]. unfold in_region in *. lia. }
    destruct (painted se (x + Z.quot size 2) (y + Z.quot size 2) (Z.quot size 2) i j) eqn:Ese.
    { apply IHse in Ese; [|lia]. unfold in_region in *. lia. }
    destruct (painted ne (x + Z.quot size 2) y (Z.quot size 2) i j) eqn:Ene.
    { apply IHne in Ene; [|lia]. unfold in_region in *. lia. }
    apply IHnw in Hp; [|lia]. unfold in_region in *. lia.
Qed.

Lemma painted_outside (node : QuadTree) (x y size i j : Z) :
  0 <= size -> ~ in_region x y size i j -> painted node x y size i j = None.
Proof.
  intros Hs Hout. destruct (painted node x y size i j) eqn:E; [|reflexivity].
  exfalso. apply Hout. eapply painted_in_region; eassumption.
Qed.

(** [Decode] succeeds on a region inside the target, and the result is the
    target overwritten by [painted]. *)
Lemma Decode_spec (W H : Z) (node : QuadTree) :
  forall (img : Grid) (x y size : Z),
  rect W H img -> fits W H x y size ->
  exists img', Decode img node x y size = Ok img' /\ rect W H img' /\
    forall i j, get img' i j =
                match painted node x y size i j with
                | Some c => Ok c
                | None => get img i j
                end.
Proof.
  induction node as [v | nw IHnw ne IHne se IHse sw IHsw];
    intros img x y size Hr Hfit; simpl.
  - destruct (fill_spec W H img v x y size Hr Hfit) as (img' & Hf & Hr' & Hc).
    exists img'. split; [assumption|]. split; [assumption|].
    intros i j. rewrite Hc. case_decide; reflexivity.
  - destruct (fits_quadrants _ _ _ _ _ Hfit) as (F1 & F2 & F3 & F4).
    cbv zeta in F1, F2, F3, F4.
    destruct (IHnw img _ _ _ Hr F1) as (g1 & E1 & R1 & C1).
    destruct (IHne g1 _ _ _ R1 F2) as (g2 & E2 & R2 & C2).
    destruct (IHse g2 _ _ _ R2 F3) as (g3 & E3 & R3 & C3).
    destruct (IHsw g3 _ _ _ R3 F4) as (g4 & E4 & R4 & C4).
    exists g4. rewrite E1. simpl. rewrite E2. simpl. rewrite E3. simpl.
    split; [assumption|]. split; [assumption|].
    intros i j. rewrite C4.
    destruct (painted sw x (y + Z.quot size 2) (Z.quot size 2) i j); [reflexivity|].
    rewrite C3.
    destruct (painted se (x + Z.quot size 2) (y + Z.quot size 2) (Z.quot size 2) i j);
      [reflexivity|].
    rewrite C2.
    destruct (painted ne (x + Z.quot size 2) y (Z.quot size 2) i j); [reflexivity|].
    apply C1.
Qed.

(** ** The uniformity test *)

(** Rule for a loop that returns [v] at the first index violating [P]. *)
Lemma find_iter_spec {R : Type} (P : Z -> Prop) (v : R)
    (body : Z -> outcome (option R)) (n : nat) (lo : Z) :
  (forall i, lo <= i < lo + Z.of_nat n ->
     (body i = Ok None /\ P i) \/ (body i = Ok (Some v) /\ ~ P i)) ->
  (find_iter lo n body = Ok None /\ forall i, lo <= i < lo + Z.of_nat n -> P i) \/
  (find_iter lo n body = Ok (Some v) /\ exists i, lo <= i < lo + Z.of_nat n /\ ~ P i).
Proof.
  revert lo. induction n as [|n IH]; intros lo Hbody.
  - left. split; [reflexivity | intros; lia].
  - simpl find_iter. destruct (Hbody lo) as [[Hb Hp] | [Hb Hp]]; [lia | |].
    + rewrite Hb. simpl.
      destruct (IH (lo + 1)) as [[Hrun Hall] | [Hrun (i & Hi & Hn)]].
      * intros i Hi. apply Hbody. lia.
      * left. split; [assumption|]. intros i Hi.
        destruct (decide (i = lo)) as [->|Hne]; [assumption | apply Hall; lia].
      * right. split; [assumption|]. exists i. split; [lia | assumption].
    + rewrite Hb. simpl. right. split; [reflexivity|]. exists lo. split; [lia | assumption].
Qed.

Lemma find_range_spec {R : Type} (P : Z -> Prop) (v : R)
    (body : Z -> outcome (option R)) (lo hi : Z) :
  lo <= hi ->
  (forall i, lo <= i < hi ->
     (body i = Ok None /\ P i) \/ (body i = Ok (Some v) /\ ~ P i)) ->
  (find_range lo hi body = Ok None /\ forall i, lo <= i < hi -> P i) \/
  (find_range lo hi body = Ok (Some v) /\ exists i, lo <= i < hi /\ ~ P i).
Proof.
  intros Hle Hbody. unfold find_range.
  destruct (find_iter_spec P v body (Z.to_nat (hi - lo)) lo) as [[Hr Ha] | [Hr (i & Hi & Hn)]].
  - intros i Hi. apply Hbody. lia.
  - left. split; [assumption|]. intros i Hi. apply Ha. lia.
  - right. split; [assumption|]. exists i. split; [lia | assumption].
Qed.

Lemma isUniform_spec (W H : Z) (img : Grid) (x y size tolerance : Z) (ref : Color) :
  rect W H img -> fits W H x y size -> get img x y = Ok ref ->
  (isUniform img x y size tolerance = Ok true /\ within img ref tolerance x y size) \/
  (isUniform img x y size tolerance = Ok false /\ ~ within img ref tolerance x y size).
Proof.
  intros Hr (Hx & Hy & Hs & HW & HH) Href. unfold isUniform. rewrite Href. simpl.
  destruct (find_range_spec
    (fun j => forall i p, x <= i < x + size -> get img i j = Ok p ->
                          distanceSquared ref p <= tolerance * tolerance)
    false
    (fun j => find_range x (x + size) (fun i =>
       let* c := get img i j in
       if distanceSquared ref c >? tolerance * tolerance then Ok (Some false) else Ok None))
    y (y + size)) as [[Hrun Hall] | [Hrun (j & Hj & Hbad)]].
  - lia.
  - intros j Hj.
    destruct (find_range_spec
      (fun i => forall p, get img i j = Ok p ->
                          distanceSquared ref p <= tolerance * tolerance)
      false
      (fun i => let* c := get img i j in
         if distanceSquared ref c >? tolerance * tolerance then Ok (Some false) else Ok None)
      x (x + size)) as [[Hrun Hall] | [Hrun (i & Hi & Hbad)]].
    + lia.
    + intros i Hi. destruct (rect_get W H img i j Hr) as [p Hp]; [lia | lia |].
      rewrite Hp. simpl.
      destruct (Z.gtb_spec (distanceSquared ref p) (tolerance * tolerance)) as [Hgt|Hle].
      * right. split; [reflexivity|]. intros Hq. specialize (Hq p eq_refl). lia.
      * left. split; [reflexivity|]. intros q [= <-]. assumption.
    + left. split; [assumption|]. intros i p Hi. apply Hall. assumption.
    + right. split; [assumption|]. intros Hq. apply Hbad. intros p Hp.
      apply (Hq i p); assumption.
  - left. rewrite Hrun. simpl. split; [reflexivity|].
    intros i j p [Hi Hj] Hp. apply (Hall j Hj i p Hi Hp).
  - right. rewrite Hrun. simpl. split; [reflexivity|].
    intros Hwithin. apply Hbad. intros i p Hi Hp.
    apply (Hwithin i j p); [split; assumption | assumption].
Qed.

(** A region of side at most one is never reported as non-uniform. *)
Lemma isUniform_small (img : Grid) (x y size tolerance : Z) :
  size <= 1 -> isUniform img x y size tolerance <> Ok false.
Proof.
  intros Hs. unfold isUniform. destruct (get img x y) as [ref|e] eqn:Href; simpl;
    [|discriminate].
  unfold find_range. destruct (Z.le_gt_cases size 0) as [H0|H1].
  - replace (Z.to_nat (y + size - y)) with O by lia. simpl. discriminate.
  - replace size with 1 by lia.
    replace (Z.to_nat (y + 1 - y)) with 1%nat by lia.
    replace (Z.to_nat (x + 1 - x)) with 1%nat by lia.
    simpl. rewrite Href. simpl.
    assert (Hd : distanceSquared ref ref = 0) by (unfold distanceSquared; lia).
    rewrite Hd.
    destruct (Z.gtb_spec 0 (tolerance * tolerance)) as [Hgt|Hle].
    { pose proof (Z.square_nonneg tolerance). lia. }
    simpl. discriminate.
Qed.

(** A region of side at most one whose corner is a cell of the grid is
    reported uniform. *)
Lemma isUniform_small_true (img : Grid) (x y size tolerance : Z) (ref : Color) :
  size <= 1 -> get img x y = Ok ref -> isUniform img x y size tolerance = Ok true.
Proof.
  intros Hs Href. unfold isUniform. rewrite Href. simpl.
  unfold find_range. destruct (Z.le_gt_cases size 0) as [H0|H1].
  - replace (Z.to_nat (y + size - y)) with O by lia. reflexivity.
  - replace size with 1 by lia.
    replace (Z.to_nat (y + 1 - y)) with 1%nat by lia.
    replace (Z.to_nat (x + 1 - x)) with 1%nat by lia.
    simpl. rewrite Href. simpl.
    assert (Hd : distanceSquared ref ref = 0) by (unfold distanceSquared; lia).
    rewrite Hd.
    destruct (Z.gtb_spec 0 (tolerance * tolerance)) as [Hgt|Hle].
    { pose proof (Z.square_nonneg tolerance). lia. }
    reflexivity.
Qed.

Lemma int_wrap_small (z : Z) : - 2 ^ 31 <= z < 2 ^ 31 -> int_wrap z = z.
Proof. intros Hz. unfold int_wrap. rewrite Z.mod_small; lia. Qed.

(** For 8-bit channels the quantity computed in 32-bit [int] is the one
    computed in [Z]: no product and no sum wraps. *)
Lemma distanceSquared_int_exact (ref c : Color) :
  channel_ok ref -> channel_ok c -> distanceSquared_int ref c = distanceSquared ref c.
Proof.
  intros (R1 & R2 & R3) (C1 & C2 & C3). unfold distanceSquared_int, distanceSquared.
  cbv zeta.
  assert (Hsq : forall d, -255 <= d <= 255 -> 0 <= d * d <= 65025).
  { intros d Hd. split; [apply Z.square_nonneg|].
    assert (0 <= (255 - d) * (255 + d)) by (apply Z.mul_nonneg_nonneg; lia). lia. }
  pose proof (Hsq (r ref - r c) ltac:(lia)).
  pose proof (Hsq (g ref - g c) ltac:(lia)).
  pose proof (Hsq (b ref - b c) ltac:(lia)).
  assert (P31 : 2 ^ 31 = 2147483648) by reflexivity.
  rewrite (int_wrap_small (r ref - r c)) by lia.
  rewrite (int_wrap_small (g ref - g c)) by lia.
  rewrite (int_wrap_small (b ref - b c)) by lia.
  rewrite (int_wrap_small ((r ref - r c) * (r ref - r c))) by lia.
  rewrite (int_wrap_small ((g ref - g c) * (g ref - g c))) by lia.
  rewrite (int_wrap_small ((b ref - b c) * (b ref - b c))) by lia.
  rewrite (int_wrap_small ((r ref - r c) * (r ref - r c) + (g ref - g c) * (g ref - g c)))
    by lia.
  apply int_wrap_small. lia.
Qed.

(** The arithmetic of the uniformity test stays inside a 32-bit [int] when
    the channels are 8-bit values. *)
Lemma isUniform_arith_fits_int (ref c : Color) :
  channel_ok ref -> channel_ok c ->
  0 <= distanceSquared ref c <= 195075 /\ 195075 < 2 ^ 31 /\
  default_tolerance * default_tolerance < 2 ^ 31.
Proof.
  intros (R1 & R2 & R3) (C1 & C2 & C3). unfold distanceSquared, default_tolerance.
  assert (Hsq : forall d, -255 <= d <= 255 -> 0 <= d * d <= 65025).
  { intros d Hd. split; [apply Z.square_nonneg|].
    assert (0 <= (255 - d) * (255 + d)) by (apply Z.mul_nonneg_nonneg; lia). lia. }
  pose proof (Hsq (r ref - r c) ltac:(lia)).
  pose proof (Hsq (g ref - g c) ltac:(lia)).
  pose proof (Hsq (b ref - b c) ltac:(lia)).
  cbv zeta. split; [lia|]. split; reflexivity.
Qed.

(** ** Unfolding the encoder *)

Lemma Encode_fuel_indep (img : Grid) (f1 : nat) :
  forall (f2 : nat) (x y size : Z),
  (Z.to_nat size < f1)%nat -> (Z.to_nat size < f2)%nat ->
  Encode_fuel f1 img x y size = Encode_fuel f2 img x y size.
Proof.
  induction f1 as [|f1 IH]; intros f2 x y size H1 H2; [lia|].
  destruct f2 as [|f2]; [lia|]. simpl.
  destruct (isUniform img x y size default_tolerance) as [[|]|e] eqn:Hu; simpl;
    try reflexivity.
  assert (Hs : 2 <= size).
  { destruct (Z.le_gt_cases size 1) as [Hle|Hgt]; [|lia].
    exfalso. exact (isUniform_small _ _ _ _ _ Hle Hu). }
  pose proof (half_bounds size ltac:(lia)) as Hh.
  rewrite !(IH f2) by lia. reflexivity.
Qed.

(** The body of [Encode], with the recursive calls as calls of [Encode]. *)
Lemma Encode_eq (img : Grid) (x y size : Z) :
  Encode img x y size =
  let* u := isUniform img x y size default_tolerance in
  if u then let* c := get img x y in Ok (QuadLeaf c)
  else
    let half := Z.quot size 2 in
    let* t1 := Encode img x y half in
    let* t2 := Encode img (x + half) y half in
    let* t3 := Encode img (x + half) (y + half) half in
    let* t4 := Encode img x (y + half) half in
    Ok (QuadNode t1 t2 t3 t4).
Proof.
  unfold Encode at 1. simpl.
  destruct (isUniform img x y size default_tolerance) as [[|]|e] eqn:Hu; simpl;
    try reflexivity.
  assert (Hs : 2 <= size).
  { destruct (Z.le_gt_cases size 1) as [Hle|Hgt]; [|lia].
    exfalso. exact (isUniform_small _ _ _ _ _ Hle Hu). }
  pose proof (half_bounds size ltac:(lia)) as Hh.
  unfold Encode.
  rewrite !(Encode_fuel_indep img (Z.to_nat size) (S (Z.to_nat (Z.quot size 2)))) by lia.
  reflexivity.
Qed.

(** ** The recursion budget of the encoder is never exhausted *)

Lemma vec_at_failure {A : Type} (v : list A) (i : Z) (e : failure) :
  vec_at v i = Fail e -> e = OutOfRange.
Proof.
  unfold vec_at. destruct (i <? 0); [intros [= <-]; reflexivity|].
  destruct (v !! Z.to_nat i); [discriminate | intros [= <-]; reflexivity].
Qed.

Lemma get_failure (img : Grid) (x y : Z) (e : failure) :
  get img x y = Fail e -> e = OutOfRange.
Proof.
  unfold get. destruct (vec_at img y) as [row|e'] eqn:Hrow; simpl.
  - apply vec_at_failure.
  - intros [= <-]. eapply vec_at_failure. eassumption.
Qed.

Lemma find_iter_failure {R : Type} (body : Z -> outcome (option R)) (n : nat) :
  forall lo e, find_iter lo n body = Fail e -> exists i, body i = Fail e.
Proof.
  induction n as [|n IH]; intros lo e; simpl; [discriminate|].
  destruct (body lo) as [[v|]|e'] eqn:Hb; simpl.
  - discriminate.
  - apply IH.
  - intros [= <-]. exists lo. assumption.
Qed.

Lemma isUniform_failure (img : Grid) (x y size tolerance : Z) (e : failure) :
  isUniform img x y size tolerance = Fail e -> e = OutOfRange.
Proof.
  unfold isUniform. destruct (get img x y) as [ref|e'] eqn:Href; simpl.
  - destruct (find_range y (y + size) _) as [o|e'] eqn:Hscan; simpl; [discriminate|].
    intros [= <-]. apply find_iter_failure in Hscan. destruct Hscan as [j Hj].
    apply find_iter_failure in Hj. destruct Hj as [i Hi].
    destruct (get img i j) as [p|e''] eqn:Hp; simpl in Hi.
    + destruct (distanceSquared ref p >? tolerance * tolerance); discriminate.
    + inversion Hi. subst. eapply get_failure. eassumption.
  - intros [= <-]. eapply get_failure. eassumption.
Qed.

Lemma Encode_fuel_suffices (img : Grid) (fuel : nat) :
  forall x y size, (Z.to_nat size < fuel)%nat ->
  Encode_fuel fuel img x y size <> Fail NoFuel.
Proof.
  induction fuel as [|fuel IH]; intros x y size Hf; [lia|]. simpl.
  destruct (isUniform img x y size default_tolerance) as [[|]|e] eqn:Hu; simpl.
  - destruct (get img x y) as [c|e] eqn:Hc; simpl; [discriminate|].
    intros [= ->]. apply get_failure in Hc. discriminate.
  - assert (Hs : 2 <= size).
    { destruct (Z.le_gt_cases size 1) as [Hle|Hgt]; [|lia].
      exfalso. exact (isUniform_small _ _ _ _ _ Hle Hu). }
    pose proof (half_bounds size ltac:(lia)) as Hh.
    assert (Hhalf : (Z.to_nat (Z.quot size 2) < fuel)%nat) by lia.
    pose proof (IH x y _ Hhalf) as N1.
    pose proof (IH (x + Z.quot size 2) y _ Hhalf) as N2.
    pose proof (IH (x + Z.quot size 2) (y + Z.quot size 2) _ Hhalf) as N3.
    pose proof (IH x (y + Z.quot size 2) _ Hhalf) as N4.
    destruct (Encode_fuel fuel img x y (Z.quot size 2)) as [t1|e1]; simpl;
      [|congruence].
    destruct (Encode_fuel fuel img (x + Z.quot size 2) y (Z.quot size 2)) as [t2|e2];
      simpl; [|congruence].
    destruct (Encode_fuel fuel img (x + Z.quot size 2) (y + Z.quot size 2) (Z.quot size 2))
      as [t3|e3]; simpl; [|congruence].
    destruct (Encode_fuel fuel img x (y + Z.quot size 2) (Z.quot size 2)) as [t4|e4];
      simpl; [discriminate | congruence].
  - intros [= ->]. apply isUniform_failure in Hu. discriminate.
Qed.

(** [Encode] returns a tree or meets an out-of-range subscript; it never
    stops for lack of budget. *)
Lemma Encode_terminates (img : Grid) (x y size : Z) :
  Encode img x y size <> Fail NoFuel.
Proof. unfold Encode. apply Encode_fuel_suffices. lia. Qed.

(** ** Leaves of a tree, located by the decoder's geometry *)

Lemma painted_leaf_at (node : QuadTree) (x y size i j : Z) :
  painted node x y size i j = snd <$> leaf_at node x y size i j.
Proof.
  revert x y size. induction node as [v | nw IHnw ne IHne se IHse sw IHsw];
    intros x y size; simpl.
  - case_decide; reflexivity.
  - rewrite IHsw, IHse, IHne, IHnw.
    destruct (leaf_at sw x (y + Z.quot size 2) (Z.quot size 2) i j) as [[[d s] c]|];
      [reflexivity|].
    destruct (leaf_at se (x + Z.quot size 2) (y + Z.quot size 2) (Z.quot size 2) i j)
      as [[[d s] c]|]; [reflexivity|].
    destruct (leaf_at ne (x + Z.quot size 2) y (Z.quot size 2) i j) as [[[d s] c]|];
      [reflexivity|].
    destruct (leaf_at nw x y (Z.quot size 2) i j) as [[[d s] c]|]; reflexivity.
Qed.

Lemma leaf_at_painted (node : QuadTree) (x y size i j : Z) (d : nat) (s : Z) (c : Color) :
  leaf_at node x y size i j = Some (d, s, c) -> painted node x y size i j = Some c.
Proof. intros Hl. rewrite painted_leaf_at, Hl. reflexivity. Qed.

Lemma leaf_at_outside (node : QuadTree) (x y size i j : Z) :
  0 <= size -> ~ in_region x y size i j -> leaf_at node x y size i j = None.
Proof.
  intros Hs Hout. pose proof (painted_outside node x y size i j Hs Hout) as Hp.
  rewrite painted_leaf_at in Hp.
  destruct (leaf_at node x y size i j); [discriminate | reflexivity].
Qed.

(** Below an internal node the leaf of a cell is the leaf found in the
    quadrant that contains the cell, one level deeper. *)
Lemma leaf_at_quadrant (nw ne se sw : QuadTree) (x y size i j : Z)
    (d : nat) (s : Z) (c : Color) :
  0 <= size ->
  let half := Z.quot size 2 in
  leaf_at nw x y half i j = Some (d, s, c) \/
  leaf_at ne (x + half) y half i j = Some (d, s, c) \/
  leaf_at se (x + half) (y + half) half i j = Some (d, s, c) \/
  leaf_at sw x (y + half) half i j = Some (d, s, c) ->
  leaf_at (QuadNode nw ne se sw) x y size i j = Some (S d, s, c).
Proof.
  intros Hs half Hq. pose proof (half_bounds size Hs) as Hh. fold half in Hh.
  assert (Hin : forall t a b0, leaf_at t a b0 half i j = Some (d, s, c) ->
                               in_region a b0 half i j).
  { intros t a b0 Hl. apply (painted_in_region t a b0 half i j c); [lia|].
    eapply leaf_at_painted. eassumption. }
  simpl. fold half.
  destruct Hq as [Hq | [Hq | [Hq | Hq]]]; pose proof (Hin _ _ _ Hq) as Hreg;
    unfold in_region in Hreg.
  - rewrite (leaf_at_outside sw), (leaf_at_outside se), (leaf_at_outside ne), Hq;
      unfold in_region; try lia. reflexivity.
  - rewrite (leaf_at_outside sw), (leaf_at_outside se), Hq;
      unfold in_region; try lia. reflexivity.
  - rewrite (leaf_at_outside sw), Hq; unfold in_region; try lia. reflexivity.
  - rewrite Hq. reflexivity.
Qed.

(** ** The two cases of the encoder *)

Section Encoder.
Variables (W H : Z) (img : Grid).
Hypothesis img_rect : rect W H img.

Lemma Encode_leaf (x y size : Z) (ref : Color) :
  fits W H x y size -> get img x y = Ok ref ->
  within img ref default_tolerance x y size ->
  Encode img x y size = Ok (QuadLeaf ref).
Proof.
  intros Hfit Href Hw. rewrite Encode_eq.
  destruct (isUniform_spec W H img x y size default_tolerance ref img_rect Hfit Href)
    as [[Hu _] | [_ Hn]]; [|contradiction].
  rewrite Hu. simpl. rewrite Href. reflexivity.
Qed.

Lemma Encode_node (x y size : Z) (ref : Color) :
  fits W H x y size -> get img x y = Ok ref ->
  ~ within img ref default_tolerance x y size ->
  2 <= size /\
  Encode img x y size =
  let half := Z.quot size 2 in
  let* t1 := Encode img x y half in
  let* t2 := Encode img (x + half) y half in
  let* t3 := Encode img (x + half) (y + half) half in
  let* t4 := Encode img x (y + half) half in
  Ok (QuadNode t1 t2 t3 t4).
Proof.
  intros Hfit Href Hw.
  destruct (isUniform_spec W H img x y size default_tolerance ref img_rect Hfit Href)
    as [[_ Hy] | [Hu _]]; [contradiction|].
  split.
  - destruct (Z.le_gt_cases size 1) as [Hle|Hgt]; [|lia].
    exfalso. exact (isUniform_small _ _ _ _ _ Hle Hu).
  - rewrite Encode_eq at 1. rewrite Hu. reflexivity.
Qed.

Lemma region_corner (x y size : Z) :
  fits W H x y size -> 1 <= size -> exists ref, get img x y = Ok ref.
Proof.
  intros (Hx & Hy & Hs & HW & HH) H1. apply (rect_get W H); [assumption | lia | lia].
Qed.

(** [Encode] returns a tree on every region inside the grid, whatever the
    side. *)
Lemma Encode_total (n : nat) :
  forall x y size, 1 <= size <= Z.of_nat n -> fits W H x y size ->
  exists t, Encode img x y size = Ok t.
Proof.
  induction n as [|n IH]; intros x y size Hs Hfit; [lia|].
  destruct (region_corner x y size Hfit) as [ref Href]; [lia|].
  destruct (isUniform_spec W H img x y size default_tolerance ref img_rect Hfit Href)
    as [[_ Hw] | [_ Hw]].
  - exists (QuadLeaf ref). apply Encode_leaf; assumption.
  - destruct (Encode_node x y size ref Hfit Href Hw) as [H2 Heq].
    pose proof (half_bounds size ltac:(lia)) as Hh.
    destruct (fits_quadrants _ _ _ _ _ Hfit) as (F1 & F2 & F3 & F4).
    cbv zeta in F1, F2, F3, F4.
    assert (Hhalf : 1 <= Z.quot size 2 <= Z.of_nat n) by lia.
    destruct (IH _ _ _ Hhalf F1) as [t1 E1].
    destruct (IH _ _ _ Hhalf F2) as [t2 E2].
    destruct (IH _ _ _ Hhalf F3) as [t3 E3].
    destruct (IH _ _ _ Hhalf F4) as [t4 E4].
    exists (QuadNode t1 t2 t3 t4). rewrite Heq. cbv zeta.
    rewrite E1. simpl. rewrite E2. simpl. rewrite E3. simpl. rewrite E4. reflexivity.
Qed.

(** On a power-of-two region every cell is covered by a leaf whose color
    is a pixel of the image within tolerance of the cell's own pixel. *)
Lemma Encode_leaves (k : nat) :
  forall x y, fits W H x y (2 ^ Z.of_nat k) ->
  exists t, Encode img x y (2 ^ Z.of_nat k) = Ok t /\
    forall i j, in_region x y (2 ^ Z.of_nat k) i j ->
    exists d s c p i0 j0,
      leaf_at t x y (2 ^ Z.of_nat k) i j = Some (d, s, c) /\
      get img i j = Ok p /\ get img i0 j0 = Ok c /\
      distanceSquared c p <= default_tolerance * default_tolerance.
Proof.
  induction k as [|k IH]; intros x y Hfit.
  - destruct (region_corner x y _ Hfit) as [ref Href]; [pose proof (pow2_pos 0); lia|].
    destruct (isUniform_spec W H img x y (2 ^ Z.of_nat 0) default_tolerance ref
                img_rect Hfit Href) as [[_ Hw] | [Hu _]].
    + exists (QuadLeaf ref). split; [apply Encode_leaf; assumption|].
      intros i j Hin. destruct Hfit as (Hx & Hy & Hs & HW & HH).
      destruct (rect_get W H img i j img_rect) as [p Hp];
        [unfold in_region in Hin; lia | unfold in_region in Hin; lia |].
      exists O, (2 ^ Z.of_nat 0), ref, p, x, y. simpl leaf_at.
      rewrite decide_True by assumption.
      repeat split; try assumption. apply (Hw i j p); assumption.
    + exfalso. assert (Hone : 2 ^ Z.of_nat 0 <= 1) by (simpl; lia).
      exact (isUniform_small _ _ _ _ _ Hone Hu).
  - pose proof (pow2_pos (S k)) as Hpos.
    destruct (region_corner x y _ Hfit) as [ref Href]; [lia|].
    destruct (isUniform_spec W H img x y (2 ^ Z.of_nat (S k)) default_tolerance ref
                img_rect Hfit Href) as [[_ Hw] | [_ Hw]].
    + exists (QuadLeaf ref). split; [apply Encode_leaf; assumption|].
      intros i j Hin. destruct Hfit as (Hx & Hy & Hs & HW & HH).
      destruct (rect_get W H img i j img_rect) as [p Hp];
        [unfold in_region in Hin; lia | unfold in_region in Hin; lia |].
      exists O, (2 ^ Z.of_nat (S k)), ref, p, x, y. simpl leaf_at.
      rewrite decide_True by assumption.
      repeat split; try assumption. apply (Hw i j p); assumption.
    + destruct (Encode_node x y _ ref Hfit Href Hw) as [_ Heq].
      destruct (fits_quadrants _ _ _ _ _ Hfit) as (F1 & F2 & F3 & F4).
      cbv zeta in F1, F2, F3, F4, Heq. rewrite half_pow2 in F1, F2, F3, F4, Heq.
      destruct (IH _ _ F1) as (t1 & E1 & L1).
      destruct (IH _ _ F2) as (t2 & E2 & L2).
      destruct (IH _ _ F3) as (t3 & E3 & L3).
      destruct (IH _ _ F4) as (t4 & E4 & L4).
      exists (QuadNode t1 t2 t3 t4). split.
      { rewrite Heq, E1. simpl. rewrite E2. simpl. rewrite E3. simpl.
        rewrite E4. reflexivity. }
      intros i j Hin.
      assert (Hsz : 2 ^ Z.of_nat (S k) = 2 * 2 ^ Z.of_nat k).
      { rewrite Nat2Z.inj_succ, Z.pow_succ_r by lia. reflexivity. }
      assert (Hq : in_region x y (2 ^ Z.of_nat k) i j \/
                   in_region (x + 2 ^ Z.of_nat k) y (2 ^ Z.of_nat k) i j \/
                   in_region (x + 2 ^ Z.of_nat k) (y + 2 ^ Z.of_nat k) (2 ^ Z.of_nat k) i j \/
                   in_region x (y + 2 ^ Z.of_nat k) (2 ^ Z.of_nat k) i j).
      { unfold in_region in *. lia. }
      assert (Hsel : forall d s c,
                leaf_at t1 x y (2 ^ Z.of_nat k) i j = Some (d, s, c) \/
                leaf_at t2 (x + 2 ^ Z.of_nat k) y (2 ^ Z.of_nat k) i j = Some (d, s, c) \/
                leaf_at t3 (x + 2 ^ Z.of_nat k) (y + 2 ^ Z.of_nat k) (2 ^ Z.of_nat k) i j
                  = Some (d, s, c) \/
                leaf_at t4 x (y + 2 ^ Z.of_nat k) (2 ^ Z.of_nat k) i j = Some (d, s, c) ->
                leaf_at (QuadNode t1 t2 t3 t4) x y (2 ^ Z.of_nat (S k)) i j
                  = Some (S d, s, c)).
      { intros d s c Hor.
        pose proof (leaf_at_quadrant t1 t2 t3 t4 x y (2 ^ Z.of_nat (S k)) i j d s c
                      ltac:(lia)) as Hl.
        cbv zeta in Hl. rewrite half_pow2 in Hl. apply Hl. assumption. }
      destruct Hq as [Hq | [Hq | [Hq | Hq]]].
      * destruct (L1 i j Hq) as (d & s & c & p & i0 & j0 & Hl & Hp & Hc & Hd).
        exists (S d), s, c, p, i0, j0. repeat split; try assumption. apply Hsel. auto.
      * destruct (L2 i j Hq) as (d & s & c & p & i0 & j0 & Hl & Hp & Hc & Hd).
        exists (S d), s, c, p, i0, j0. repeat split; try assumption. apply Hsel. auto.
      * destruct (L3 i j Hq) as (d & s & c & p & i0 & j0 & Hl & Hp & Hc & Hd).
        exists (S d), s, c, p, i0, j0. repeat split; try assumption. apply Hsel. auto.
      * destruct (L4 i j Hq) as (d & s & c & p & i0 & j0 & Hl & Hp & Hc & Hd).
        exists (S d), s, c, p, i0, j0. repeat split; try assumption. apply Hsel. auto.
Qed.

End Encoder.

(** ** Encode then decode *)

Lemma distanceSquared_sym (a c : Color) : distanceSquared a c = distanceSquared c a.
Proof. unfold distanceSquared. lia. Qed.

Lemma distanceSquared_self (a : Color) : distanceSquared a a = 0.
Proof. unfold distanceSquared. lia. Qed.

(** Encoding a power-of-two square grid and decoding the tree into a target
    of the same side succeeds, and every cell of the result holds the color
    of the leaf covering it. *)
Lemma Encode_Decode (k : nat) (img target : Grid) :
  rect (2 ^ Z.of_nat k) (2 ^ Z.of_nat k) img ->
  rect (2 ^ Z.of_nat k) (2 ^ Z.of_nat k) target ->
  exists t out,
    Encode img 0 0 (2 ^ Z.of_nat k) = Ok t /\
    Decode target t 0 0 (2 ^ Z.of_nat k) = Ok out /\
    rect (2 ^ Z.of_nat k) (2 ^ Z.of_nat k) out /\
    forall i j, 0 <= i < 2 ^ Z.of_nat k -> 0 <= j < 2 ^ Z.of_nat k ->
    exists p q i0 j0,
      get img i j = Ok p /\ get out i j = Ok q /\ get img i0 j0 = Ok q /\
      distanceSquared q p <= default_tolerance * default_tolerance.
Proof.
  intros Hr Ht. pose proof (pow2_pos k) as Hpos.
  assert (Hfit : fits (2 ^ Z.of_nat k) (2 ^ Z.of_nat k) 0 0 (2 ^ Z.of_nat k)).
  { unfold fits. lia. }
  destruct (Encode_leaves _ _ img Hr k 0 0 Hfit) as (t & Henc & Hleaves).
  destruct (Decode_spec _ _ t target 0 0 _ Ht Hfit) as (out & Hdec & Hro & Hcells).
  exists t, out. split; [assumption|]. split; [assumption|]. split; [assumption|].
  intros i j Hi Hj.
  assert (Hin : in_region 0 0 (2 ^ Z.of_nat k) i j) by (unfold in_region; lia).
  destruct (Hleaves i j Hin) as (d & s & c & p & i0 & j0 & Hl & Hp & Hc & Hd).
  exists p, c, i0, j0. split; [assumption|]. split; [|split; assumption].
  rewrite Hcells, (leaf_at_painted _ _ _ _ _ _ _ _ _ Hl). reflexivity.
Qed.

(** C1: for a square grid of 8-bit pixels whose side is a power of two,
    decoding the tree that [Encode] builds (with its tolerance, 10) into a
    target grid of the same side yields a grid each of whose pixels is at
    squared distance at most tolerance * tolerance from the corresponding
    pixel of the original. *)
Theorem roundtrip_within_tolerance (k : nat) (img target : Grid) :
  rect (2 ^ Z.of_nat k) (2 ^ Z.of_nat k) img ->
  rect (2 ^ Z.of_nat k) (2 ^ Z.of_nat k) target ->
  pixels_ok img ->
  exists t out,
    Encode img 0 0 (2 ^ Z.of_nat k) = Ok t /\
    Decode target t 0 0 (2 ^ Z.of_nat k) = Ok out /\
    rect (2 ^ Z.of_nat k) (2 ^ Z.of_nat k) out /\
    forall i j, 0 <= i < 2 ^ Z.of_nat k -> 0 <= j < 2 ^ Z.of_nat k ->
    exists p q,
      get img i j = Ok p /\ get out i j = Ok q /\
      distanceSquared p q <= default_tolerance * default_tolerance.
Proof.
  intros Hr Ht _. destruct (Encode_Decode k img target Hr Ht)
    as (t & out & Henc & Hdec & Hro & Hcells).
  exists t, out. split; [assumption|]. split; [assumption|]. split; [assumption|].
  intros i j Hi Hj. destruct (Hcells i j Hi Hj) as (p & q & _ & _ & Hp & Hq & _ & Hd).
  exists p, q. rewrite distanceSquared_sym. auto.
Qed.

(** At its own tolerance, 10, [Encode] followed by [Decode] is exact on a
    square grid of 8-bit pixels whose side is a power of two and in which
    any two pixels at squared distance at most 100 are equal. *)
Lemma roundtrip_exact_when_separated (k : nat) (img target : Grid) :
  rect (2 ^ Z.of_nat k) (2 ^ Z.of_nat k) img ->
  rect (2 ^ Z.of_nat k) (2 ^ Z.of_nat k) target ->
  pixels_ok img ->
  separated img ->
  exists t, Encode img 0 0 (2 ^ Z.of_nat k) = Ok t /\
            Decode target t 0 0 (2 ^ Z.of_nat k) = Ok img.
Proof.
  intros Hr Ht _ Hsep. destruct (Encode_Decode k img target Hr Ht)
    as (t & out & Henc & Hdec & Hro & Hcells).
  exists t. split; [assumption|]. rewrite Hdec. f_equal.
  apply (rect_ext _ _ out img Hro Hr). intros i j Hi Hj.
  destruct (Hcells i j Hi Hj) as (p & q & i0 & j0 & Hp & Hq & Hq0 & Hd).
  rewrite Hp, Hq. f_equal. apply (Hsep i0 j0 i j q p Hq0 Hp Hd).
Qed.

(** ** The encoder at another tolerance of the uniformity test *)

Lemma Encode_tol_fuel_default (img : Grid) (fuel : nat) :
  forall x y size,
  Encode_tol_fuel default_tolerance fuel img x y size = Encode_fuel fuel img x y size.
Proof.
  induction fuel as [|fuel IH]; intros x y size; [reflexivity|]. simpl.
  rewrite !IH. reflexivity.
Qed.

(** The encoder of the source is [Encode_tol] at the default tolerance. *)
Lemma Encode_tol_default (img : Grid) (x y size : Z) :
  Encode_tol default_tolerance img x y size = Encode img x y size.
Proof. unfold Encode_tol, Encode. apply Encode_tol_fuel_default. Qed.






(** C3: on a power-of-two region inside a grid of 8-bit pixels, [Encode] returns a leaf
    holding the top-left pixel [img[y][x]] exactly when every pixel of the
    region is within squared distance tolerance * tolerance of it, and
    otherwise an internal node whose children are the encodings of the
    quadrants at (x, y), (x+half, y), (x+half, y+half), (x, y+half), each of
    side half = size / 2, in the order NW, NE, SE, SW. *)
Theorem Encode_leaf_or_quadrants (W H : Z) (img : Grid) (x y : Z) (k : nat) :
  rect W H img -> pixels_ok img -> fits W H x y (2 ^ Z.of_nat k) ->
  exists ref, get img x y = Ok ref /\
    (within img ref default_tolerance x y (2 ^ Z.of_nat k) ->
       Encode img x y (2 ^ Z.of_nat k) = Ok (QuadLeaf ref)) /\
    (~ within img ref default_tolerance x y (2 ^ Z.of_nat k) ->
       let half := Z.quot (2 ^ Z.of_nat k) 2 in
       exists nw ne se sw,
         Encode img x y half = Ok nw /\
         Encode img (x + half) y half = Ok ne /\
         Encode img (x + half) (y + half) half = Ok se /\
         Encode img x (y + half) half = Ok sw /\
         Encode img x y (2 ^ Z.of_nat k) = Ok (QuadNode nw ne se sw)).
Proof.
  intros Hr _ Hfit. pose proof (pow2_pos k) as Hpos.
  destruct (region_corner W H img Hr x y _ Hfit) as [ref Href]; [lia|].
  exists ref. split; [assumption|]. split.
  - intros Hw. apply (Encode_leaf W H img Hr); assumption.
  - intros Hw half.
    destruct (Encode_node W H img Hr x y _ ref Hfit Href Hw) as [H2 Heq].
    pose proof (half_bounds (2 ^ Z.of_nat k) ltac:(lia)) as Hh. fold half in Hh.
    destruct (fits_quadrants _ _ _ _ _ Hfit) as (F1 & F2 & F3 & F4).
    cbv zeta in F1, F2, F3, F4, Heq. fold half in F1, F2, F3, F4, Heq.
    assert (Hhalf : 1 <= half <= Z.of_nat (Z.to_nat half)) by lia.
    destruct (Encode_total W H img Hr _ _ _ _ Hhalf F1) as [t1 E1].
    destruct (Encode_total W H img Hr _ _ _ _ Hhalf F2) as [t2 E2].
    destruct (Encode_total W H img Hr _ _ _ _ Hhalf F3) as [t3 E3].
    destruct (Encode_total W H img Hr _ _ _ _ Hhalf F4) as [t4 E4].
    exists t1, t2, t3, t4. split; [assumption|]. split; [assumption|].
    split; [assumption|]. split; [assumption|].
    rewrite Heq, E1. simpl. rewrite E2. simpl. rewrite E3. simpl. rewrite E4. reflexivity.
Qed.


(** C8: for a power-of-two region inside the target, [Decode] succeeds, and
    there is a map [w] from cells to colors, fixed by the tree and the region
    alone and defined only inside the region, such that for every target the
    result is the target overwritten by [w]: cells outside the region keep
    their value and the written values do not depend on the target. *)
Theorem Decode_frame (W H : Z) (node : QuadTree) (x y : Z) (k : nat) :
  fits W H x y (2 ^ Z.of_nat k) ->
  exists w : Z -> Z -> option Color,
    (forall i j c, w i j = Some c -> in_region x y (2 ^ Z.of_nat k) i j) /\
    forall target, rect W H target ->
      exists out, Decode target node x y (2 ^ Z.of_nat k) = Ok out /\
        rect W H out /\
        (forall i j, ~ in_region x y (2 ^ Z.of_nat k) i j ->
                     get out i j = get target i j) /\
        (forall i j, get out i j =
                     match w i j with Some c => Ok c | None => get target i j end).
Proof.
  intros Hfit. pose proof (pow2_pos k) as Hpos.
  exists (painted node x y (2 ^ Z.of_nat k)). split.
  - intros i j c. apply painted_in_region. lia.
  - intros target Ht.
    destruct (Decode_spec W H node target x y _ Ht Hfit) as (out & Hdec & Hro & Hcells).
    exists out. split; [assumption|]. split; [assumption|]. split; [|assumption].
    intros i j Hout. rewrite Hcells, painted_outside; [reflexivity | lia | assumption].
Qed.

(** ** A grid that is uniform except for one pixel *)

Section LonePixel.
Variables (W H : Z) (img : Grid).
Hypothesis img_rect : rect W H img.
Variables (c d : Color) (px py : Z).
Hypothesis pixel : get img px py = Ok d.
Hypothesis apart : default_tolerance * default_tolerance < distanceSquared c d.

Lemma background_quadrant (x y size a b0 : Z) :
  0 <= size -> background img c px py x y size ->
  x <= a -> y <= b0 ->
  a + Z.quot size 2 <= x + size -> b0 + Z.quot size 2 <= y + size ->
  background img c px py a b0 (Z.quot size 2).
Proof.
  intros Hs Hbg Ha Hb Hax Hby i j Hin Hne. apply Hbg; [|assumption].
  unfold in_region in *. lia.
Qed.

Lemma Encode_flat_block (k : nat) (x y : Z) :
  fits W H x y (2 ^ Z.of_nat k) ->
  (forall i j, in_region x y (2 ^ Z.of_nat k) i j -> get img i j = Ok c) ->
  Encode img x y (2 ^ Z.of_nat k) = Ok (QuadLeaf c).
Proof.
  intros Hfit Hflat. pose proof (pow2_pos k) as Hpos.
  apply (Encode_leaf W H img img_rect); [assumption | |].
  - apply Hflat. unfold in_region. lia.
  - intros i j p Hin Hp. rewrite (Hflat i j Hin) in Hp. inversion Hp. subst.
    rewrite distanceSquared_self. unfold default_tolerance. lia.
Qed.

Lemma pow2_level (k m : nat) :
  (1 <= m <= k)%nat -> (2 * 2 ^ Z.of_nat (k - m) | 2 ^ Z.of_nat k).
Proof.
  intros Hm. exists (2 ^ Z.of_nat (m - 1)).
  replace (Z.of_nat k) with (Z.of_nat (m - 1) + Z.succ (Z.of_nat (k - m))) at 1 by lia.
  rewrite Z.pow_add_r by lia. rewrite Z.pow_succ_r by lia. reflexivity.
Qed.

(** The tree of a power-of-two region that contains the odd pixel: the
    pixel's leaf is at the bottom, and the leaf of any other cell is the
    quadrant, next to the path to the pixel, in which the cell parts from
    the pixel. *)
Lemma Encode_lone_pixel_exact (k : nat) :
  forall x y, fits W H x y (2 ^ Z.of_nat k) ->
  in_region x y (2 ^ Z.of_nat k) px py ->
  background img c px py x y (2 ^ Z.of_nat k) ->
  exists t, Encode img x y (2 ^ Z.of_nat k) = Ok t /\
    leaf_at t x y (2 ^ Z.of_nat k) px py = Some (k, 1, d) /\
    forall i j, in_region x y (2 ^ Z.of_nat k) i j -> (i, j) <> (px, py) ->
      exists (m : nat) (a b0 : Z),
        (1 <= m <= k)%nat /\
        leaf_at t x y (2 ^ Z.of_nat k) i j = Some (m, 2 ^ Z.of_nat (k - m), c) /\
        splits x y (2 ^ Z.of_nat (k - m)) a b0 i j px py.
Proof.
  induction k as [|k IH]; intros x y Hfit Hpin Hbg.
  - (* side 1: the region is the single cell (x, y), the odd pixel *)
    destruct Hpin as [Hpx Hpy]. simpl in Hpx, Hpy.
    assert (x = px /\ y = py) as [Hxp Hyp] by lia.
    destruct (region_corner W H img img_rect x y _ Hfit) as [ref Href];
      [simpl; lia|].
    pose proof pixel as Hpix. rewrite <- Hxp, <- Hyp, Href in Hpix.
    inversion Hpix. subst ref.
    exists (QuadLeaf d). split; [|split].
    + apply (Encode_leaf W H img img_rect); [assumption | assumption |].
      intros i j p [Hi Hj] Hp. simpl in Hi, Hj.
      assert (i = x /\ j = y) as [-> ->] by lia.
      rewrite Href in Hp. inversion Hp. subst. rewrite distanceSquared_self.
      unfold default_tolerance. lia.
    + simpl. rewrite <- Hxp, <- Hyp.
      rewrite decide_True by (unfold in_region; simpl; lia). reflexivity.
    + intros i j [Hi Hj] Hne. simpl in Hi, Hj. exfalso. apply Hne. f_equal; lia.
  - pose proof (pow2_pos (S k)) as Hpos. pose proof (pow2_pos k) as Hposk.
    assert (Hsz : 2 ^ Z.of_nat (S k) = 2 * 2 ^ Z.of_nat k).
    { rewrite Nat2Z.inj_succ, Z.pow_succ_r by lia. reflexivity. }
    destruct (region_corner W H img img_rect x y _ Hfit) as [ref Href]; [lia|].
    assert (Hw : ~ within img ref default_tolerance x y (2 ^ Z.of_nat (S k))).
    { intros Hw. destruct (decide ((x, y) = (px, py))) as [Heq|Hne].
      - inversion Heq as [[Hxp Hyp]]. pose proof pixel as Hpix.
        rewrite <- Hxp, <- Hyp, Href in Hpix. inversion Hpix. subst ref.
        assert (Hc : get img (x + 1) y = Ok c).
        { apply Hbg; [unfold in_region; lia|]. intros [= ? ?]. lia. }
        pose proof (Hw (x + 1) y c ltac:(unfold in_region; lia) Hc) as Hd.
        rewrite distanceSquared_sym in Hd. lia.
      - rewrite (Hbg x y) in Href; [|unfold in_region; lia | assumption].
        inversion Href. subst ref.
        pose proof (Hw px py d Hpin pixel). lia. }
    destruct (Encode_node W H img img_rect x y _ ref Hfit Href Hw) as [_ Heq].
    cbv zeta in Heq. rewrite half_pow2 in Heq.
    pose (Q := fun (xq yq : Z) (tq : QuadTree) =>
      (in_region xq yq (2 ^ Z.of_nat k) px py ->
         leaf_at tq xq yq (2 ^ Z.of_nat k) px py = Some (k, 1, d) /\
         forall i j, in_region xq yq (2 ^ Z.of_nat k) i j -> (i, j) <> (px, py) ->
           exists (m : nat) (a b0 : Z),
             (1 <= m <= k)%nat /\
             leaf_at tq xq yq (2 ^ Z.of_nat k) i j = Some (m, 2 ^ Z.of_nat (k - m), c) /\
             splits xq yq (2 ^ Z.of_nat (k - m)) a b0 i j px py) /\
      (~ in_region xq yq (2 ^ Z.of_nat k) px py -> tq = QuadLeaf c)).
    assert (Hquad : forall xq yq,
              xq = x \/ xq = x + 2 ^ Z.of_nat k -> yq = y \/ yq = y + 2 ^ Z.of_nat k ->
              exists tq, Encode img xq yq (2 ^ Z.of_nat k) = Ok tq /\ Q xq yq tq).
    { intros xq yq Hxq Hyq.
      assert (Fq : fits W H xq yq (2 ^ Z.of_nat k)).
      { unfold fits in *. lia. }
      assert (Bq : background img c px py xq yq (2 ^ Z.of_nat k)).
      { intros i j Hin Hne. apply Hbg; [|assumption]. unfold in_region in *. lia. }
      destruct (decide (in_region xq yq (2 ^ Z.of_nat k) px py)) as [Hin|Hout].
      - destruct (IH xq yq Fq Hin Bq) as (tq & Eq & Pq & Lq).
        exists tq. split; [assumption|]. split; [auto | contradiction].
      - exists (QuadLeaf c). split.
        + apply Encode_flat_block; [assumption|]. intros i j Hin.
          apply Bq; [assumption|]. intros [= Hi Hj]. apply Hout.
          rewrite <- Hi, <- Hj. assumption.
        + split; [contradiction | reflexivity]. }
    destruct (Hquad x y) as (t1 & E1 & Q1); [auto | auto |].
    destruct (Hquad (x + 2 ^ Z.of_nat k) y) as (t2 & E2 & Q2); [auto | auto |].
    destruct (Hquad (x + 2 ^ Z.of_nat k) (y + 2 ^ Z.of_nat k)) as (t3 & E3 & Q3);
      [auto | auto |].
    destruct (Hquad x (y + 2 ^ Z.of_nat k)) as (t4 & E4 & Q4); [auto | auto |].
    exists (QuadNode t1 t2 t3 t4). split.
    { rewrite Heq, E1. simpl. rewrite E2. simpl. rewrite E3. simpl.
      rewrite E4. reflexivity. }
    assert (Hsel : forall i j m s v,
              leaf_at t1 x y (2 ^ Z.of_nat k) i j = Some (m, s, v) \/
              leaf_at t2 (x + 2 ^ Z.of_nat k) y (2 ^ Z.of_nat k) i j = Some (m, s, v) \/
              leaf_at t3 (x + 2 ^ Z.of_nat k) (y + 2 ^ Z.of_nat k) (2 ^ Z.of_nat k) i j
                = Some (m, s, v) \/
              leaf_at t4 x (y + 2 ^ Z.of_nat k) (2 ^ Z.of_nat k) i j = Some (m, s, v) ->
              leaf_at (QuadNode t1 t2 t3 t4) x y (2 ^ Z.of_nat (S k)) i j
                = Some (S m, s, v)).
    { intros i j m s v Hor.
      pose proof (leaf_at_quadrant t1 t2 t3 t4 x y (2 ^ Z.of_nat (S k)) i j m s v
                    ltac:(lia)) as Hl.
      cbv zeta in Hl. rewrite half_pow2 in Hl. apply Hl. assumption. }
    assert (Hcases : forall i j, in_region x y (2 ^ Z.of_nat (S k)) i j ->
              in_region x y (2 ^ Z.of_nat k) i j \/
              in_region (x + 2 ^ Z.of_nat k) y (2 ^ Z.of_nat k) i j \/
              in_region (x + 2 ^ Z.of_nat k) (y + 2 ^ Z.of_nat k) (2 ^ Z.of_nat k) i j \/
              in_region x (y + 2 ^ Z.of_nat k) (2 ^ Z.of_nat k) i j).
    { intros i j. unfold in_region. lia. }
    split.
    + apply Hsel.
      destruct (Hcases px py Hpin) as [Hin | [Hin | [Hin | Hin]]].
      * left. apply Q1. assumption.
      * right. left. apply Q2. assumption.
      * right. right. left. apply Q3. assumption.
      * right. right. right. apply Q4. assumption.
    + intros i j Hin Hne.
      assert (Hcell : forall xq yq tq,
                xq = x \/ xq = x + 2 ^ Z.of_nat k -> yq = y \/ yq = y + 2 ^ Z.of_nat k ->
                Q xq yq tq -> in_region xq yq (2 ^ Z.of_nat k) i j ->
                exists (m0 : nat) (a b0 : Z),
                  (m0 <= k)%nat /\
                  leaf_at tq xq yq (2 ^ Z.of_nat k) i j
                    = Some (m0, 2 ^ Z.of_nat (S k - S m0), c) /\
                  splits x y (2 ^ Z.of_nat (S k - S m0)) a b0 i j px py).
      { intros xq yq tq Hxq Hyq [Qin Qout] Hiq.
        destruct (decide (in_region xq yq (2 ^ Z.of_nat k) px py)) as [Hp|Hp].
        - destruct (Qin Hp) as [_ Lq].
          destruct (Lq i j Hiq Hne) as (m & a & b0 & Hm & Hl & Hs).
          exists m, a, b0. split; [lia|]. split; [exact Hl|].
          change (S k - S m)%nat with (k - m)%nat.
          destruct Hs as (Da & Db & S1 & S2 & S3).
          pose proof (pow2_level k m Hm) as Hdiv.
          split; [|split; [|split; [assumption|split; assumption]]].
          + replace (a - x) with ((a - xq) + (xq - x)) by lia.
            apply Z.divide_add_r; [assumption|].
            destruct Hxq as [-> | ->].
            * replace (x - x) with 0 by lia. apply Z.divide_0_r.
            * replace (x + 2 ^ Z.of_nat k - x) with (2 ^ Z.of_nat k) by lia. assumption.
          + replace (b0 - y) with ((b0 - yq) + (yq - y)) by lia.
            apply Z.divide_add_r; [assumption|].
            destruct Hyq as [-> | ->].
            * replace (y - y) with 0 by lia. apply Z.divide_0_r.
            * replace (y + 2 ^ Z.of_nat k - y) with (2 ^ Z.of_nat k) by lia. assumption.
        - rewrite (Qout Hp). exists O, x, y. split; [lia|].
          change (S k - 1)%nat with (k - 0)%nat. rewrite Nat.sub_0_r.
          split; [simpl; rewrite decide_True by assumption; reflexivity|].
          split; [replace (x - x) with 0 by lia; apply Z.divide_0_r|].
          split; [replace (y - y) with 0 by lia; apply Z.divide_0_r|].
          rewrite <- Hsz. split; [assumption|]. split; [assumption|].
          unfold in_region in *. destruct Hxq as [-> | ->], Hyq as [-> | ->]; lia. }
      destruct (Hcases i j Hin) as [Hi | [Hi | [Hi | Hi]]].
      * destruct (Hcell x y t1 ltac:(auto) ltac:(auto) Q1 Hi) 
          as (m0 & a & b0 & Hm & Hl & Hs).
        exists (S m0), a, b0. split; [lia|]. split; [apply Hsel; auto | assumption].
      * destruct (Hcell (x + 2 ^ Z.of_nat k) y t2 ltac:(auto) ltac:(auto) Q2 Hi) 
          as (m0 & a & b0 & Hm & Hl & Hs).
        exists (S m0), a, b0. split; [lia|]. split; [apply Hsel; auto | assumption].
      * destruct (Hcell (x + 2 ^ Z.of_nat k) (y + 2 ^ Z.of_nat k) t3 ltac:(auto) ltac:(auto) Q3 Hi) 
          as (m0 & a & b0 & Hm & Hl & Hs).
        exists (S m0), a, b0. split; [lia|]. split; [apply Hsel; auto | assumption].
      * destruct (Hcell x (y + 2 ^ Z.of_nat k) t4 ltac:(auto) ltac:(auto) Q4 Hi) 
          as (m0 & a & b0 & Hm & Hl & Hs).
        exists (S m0), a, b0. split; [lia|]. split; [apply Hsel; auto | assumption].
Qed.

End LonePixel.

(** No multiple of [u] lies strictly inside a block of side [u] that starts
    at a multiple of [u]. *)
Lemma no_boundary_inside (u T a i p : Z) :
  0 < u -> (u | T) -> (u | a) ->
  a <= i < a + u -> a <= p < a + u -> ~ (i < T <-> p < T) -> False.
Proof.
  intros Hu [qT ->] [qa ->] Hi Hp Hne.
  assert (Hin : qa * u < qT * u < qa * u + u).
  { destruct (Z.lt_ge_cases i (qT * u)) as [Hl|Hg];
      destruct (Z.lt_ge_cases p (qT * u)) as [Hl'|Hg']; try lia;
      exfalso; apply Hne; split; intros; lia. }
  assert (qa < qT) by nia. nia.
Qed.

(** [splits] fixes the level: a cell parts from the odd pixel at one depth
    only, so the depth and the block side of its leaf are determined. *)
Lemma splits_level_unique (k m m' : nat) (a b0 a' b0' i j px py : Z) :
  (1 <= m <= k)%nat -> (1 <= m' <= k)%nat ->
  splits 0 0 (2 ^ Z.of_nat (k - m)) a b0 i j px py ->
  splits 0 0 (2 ^ Z.of_nat (k - m')) a' b0' i j px py ->
  m = m'.
Proof.
  assert (Hlt : forall (n n' : nat) (c e c' e' : Z),
            (1 <= n)%nat -> (n < n' <= k)%nat ->
            splits 0 0 (2 ^ Z.of_nat (k - n)) c e i j px py ->
            splits 0 0 (2 ^ Z.of_nat (k - n')) c' e' i j px py -> False).
  { intros n n' c e c' e' Hn Hn' (Dc & De & _ & _ & Hq) (Dc' & De' & Ri & Rp & _).
    rewrite Z.sub_0_r in Dc, De, Dc', De'.
    pose proof (pow2_pos (k - n')) as Hpos'.
    assert (Hdiv : (2 * 2 ^ Z.of_nat (k - n') | 2 ^ Z.of_nat (k - n))).
    { pose proof (pow2_level (k - n) (n' - n) ltac:(lia)) as Hl.
      replace (k - n - (n' - n))%nat with (k - n')%nat in Hl by lia. exact Hl. }
    assert (Hs : (2 ^ Z.of_nat (k - n) | 2 * 2 ^ Z.of_nat (k - n))).
    { exists 2. reflexivity. }
    assert (Tc : (2 * 2 ^ Z.of_nat (k - n') | c + 2 ^ Z.of_nat (k - n))).
    { apply Z.divide_add_r; [|assumption].
      eapply Z.divide_trans; [exact Hdiv|]. eapply Z.divide_trans; [exact Hs | exact Dc]. }
    assert (Te : (2 * 2 ^ Z.of_nat (k - n') | e + 2 ^ Z.of_nat (k - n))).
    { apply Z.divide_add_r; [|assumption].
      eapply Z.divide_trans; [exact Hdiv|]. eapply Z.divide_trans; [exact Hs | exact De]. }
    destruct Ri as [Rix Riy], Rp as [Rpx Rpy].
    apply Hq. split.
    - destruct (Z.lt_ge_cases i (c + 2 ^ Z.of_nat (k - n))) as [Hl|Hg];
        destruct (Z.lt_ge_cases px (c + 2 ^ Z.of_nat (k - n))) as [Hl'|Hg'];
        try (split; intros; lia);
        exfalso;
        apply (no_boundary_inside (2 * 2 ^ Z.of_nat (k - n')) (c + 2 ^ Z.of_nat (k - n))
                 c' i px); try assumption; try lia; intros [? ?]; lia.
    - destruct (Z.lt_ge_cases j (e + 2 ^ Z.of_nat (k - n))) as [Hl|Hg];
        destruct (Z.lt_ge_cases py (e + 2 ^ Z.of_nat (k - n))) as [Hl'|Hg'];
        try (split; intros; lia);
        exfalso;
        apply (no_boundary_inside (2 * 2 ^ Z.of_nat (k - n')) (e + 2 ^ Z.of_nat (k - n))
                 e' j py); try assumption; try lia; intros [? ?]; lia. }
  intros Hm Hm' S1 S2.
  destruct (Nat.lt_trichotomy m m') as [Hl | [He | Hg]]; [|assumption|].
  - exfalso. apply (Hlt m m' a b0 a' b0'); [lia | lia | assumption | assumption].
  - exfalso. apply (Hlt m' m a' b0' a b0); [lia | lia | assumption | assumption].
Qed.

(** ** Allocation, and the copy loops of [Resize] and [PadToSquare] *)

Lemma rect_replicate (w h : Z) (c : Color) :
  0 <= w -> 0 <= h ->
  rect w h (replicate (Z.to_nat h) (replicate (Z.to_nat w) c)).
Proof.
  intros Hw Hh. split.
  - rewrite length_replicate. lia.
  - apply Forall_replicate. rewrite length_replicate. lia.
Qed.

Lemma get_replicate (w h x y : Z) (c : Color) :
  0 <= x < w -> 0 <= y < h ->
  get (replicate (Z.to_nat h) (replicate (Z.to_nat w) c)) x y = Ok c.
Proof.
  intros Hx Hy. unfold get.
  assert (Hrow : vec_at (replicate (Z.to_nat h) (replicate (Z.to_nat w) c)) y
                 = Ok (replicate (Z.to_nat w) c)).
  { apply vec_at_Ok. split; [lia|]. apply lookup_replicate_2. lia. }
  rewrite Hrow. simpl. apply vec_at_Ok. split; [lia|]. apply lookup_replicate_2. lia.
Qed.

Lemma Image_new_spec (w h : Z) :
  0 <= w -> 0 <= h ->
  Image_new w h =
  Ok (mkImage (replicate (Z.to_nat h) (replicate (Z.to_nat w) black)) w h).
Proof.
  intros Hw Hh. unfold Image_new.
  destruct (Z.ltb_spec w 0); [lia|]. destruct (Z.ltb_spec h 0); [lia|]. reflexivity.
Qed.

Lemma set_at_spec (Wd Hd : Z) (t : Image) (x y : Z) (c : Color) :
  rect Wd Hd (data t) -> 0 <= x < Wd -> 0 <= y < Hd ->
  exists t', set_at t x y c = Ok t' /\ rect Wd Hd (data t') /\
    w_ t' = w_ t /\ h_ t' = h_ t /\
    forall i j, get (data t') i j =
                if decide (i = x /\ j = y) then Ok c else get (data t) i j.
Proof.
  intros Hr Hx Hy.
  destruct (put_spec Wd Hd (data t) x y c Hr Hx Hy) as (d' & Hput & Hr' & Hcells).
  exists (mkImage d' (w_ t) (h_ t)). unfold set_at. rewrite Hput. simpl. auto.
Qed.

(** Two nested loops that store a value [v x y] in every cell of the
    top-left [w] by [h] block of an image. *)
Lemma store_loops (Wd Hd w h : Z) (cell : Z -> Z -> Image -> outcome Image)
    (v : Z -> Z -> Color) (t0 : Image) :
  rect Wd Hd (data t0) -> 0 <= w <= Wd -> 0 <= h <= Hd ->
  (forall x y t, 0 <= x < w -> 0 <= y < h -> cell x y t = set_at t x y (v x y)) ->
  exists t,
    for_range 0 h (fun y t => for_range 0 w (fun x t => cell x y t) t) t0 = Ok t /\
    rect Wd Hd (data t) /\ w_ t = w_ t0 /\ h_ t = h_ t0 /\
    forall x y, get (data t) x y =
                if decide (0 <= x < w /\ 0 <= y < h) then Ok (v x y)
                else get (data t0) x y.
Proof.
  intros Hr Hw Hh Hcell.
  destruct (for_range_inv
    (fun j t => rect Wd Hd (data t) /\ w_ t = w_ t0 /\ h_ t = h_ t0 /\
       forall x y, get (data t) x y =
         if decide (0 <= x < w /\ 0 <= y < j) then Ok (v x y) else get (data t0) x y)
    (fun y t => for_range 0 w (fun x t => cell x y t) t) 0 h t0)
    as (t & Hrun & Hrt & Hwt & Hht & Hcells).
  - lia.
  - split; [assumption|]. split; [reflexivity|]. split; [reflexivity|].
    intros x y. rewrite decide_False by lia. reflexivity.
  - intros j t Hj (Hrt & Hwt & Hht & Hct).
    destruct (for_range_inv
      (fun i u => rect Wd Hd (data u) /\ w_ u = w_ t0 /\ h_ u = h_ t0 /\
         forall x y, get (data u) x y =
           if decide (0 <= x < i /\ y = j) then Ok (v x y) else get (data t) x y)
      (fun x u => cell x j u) 0 w t) as (u & Hu & Hru & Hwu & Hhu & Hcu).
    + lia.
    + split; [assumption|]. split; [assumption|]. split; [assumption|].
      intros x y. rewrite decide_False by lia. reflexivity.
    + intros i u Hi (Hru & Hwu & Hhu & Hcu).
      destruct (set_at_spec Wd Hd u i j (v i j) Hru) as (u' & Hset & Hru' & Hwu' & Hhu' & Hcu');
        [lia | lia |].
      exists u'. rewrite Hcell by lia. split; [assumption|]. split; [assumption|].
      split; [congruence|]. split; [congruence|].
      intros x y. rewrite Hcu', Hcu.
      repeat case_decide; try reflexivity; try lia.
      destruct_and!. subst. reflexivity.
    + exists u. split; [assumption|]. split; [assumption|].
      split; [assumption|]. split; [assumption|].
      intros x y. rewrite Hcu, Hct. repeat case_decide; try reflexivity; lia.
  - exists t. auto.
Qed.

(** ** Powers of two *)

Lemma IsPowerOfTwo_pow2 (k : Z) : 0 <= k -> IsPowerOfTwo (2 ^ k) = true.
Proof.
  intros Hk. unfold IsPowerOfTwo.
  pose proof (Z.pow_pos_nonneg 2 k ltac:(lia) Hk) as Hpos.
  apply andb_true_intro. split; [apply Z.ltb_lt; assumption|].
  apply Z.eqb_eq. replace (2 ^ k - 1) with (Z.ones k).
  - rewrite Z.land_ones by assumption. apply Z.mod_same. lia.
  - rewrite Z.ones_equiv. lia.
Qed.

Lemma IsPowerOfTwo_inv (x : Z) :
  IsPowerOfTwo x = true -> exists k, 0 <= k /\ x = 2 ^ k.
Proof.
  unfold IsPowerOfTwo. intros [Hpos Hland]%andb_prop.
  apply Z.ltb_lt in Hpos. apply Z.eqb_eq in Hland.
  exists (Z.log2 x). split; [apply Z.log2_nonneg|].
  destruct (Z.log2_spec x Hpos) as [Hlo Hhi].
  destruct (Z.eq_dec x (2 ^ Z.log2 x)) as [Heq|Hne]; [assumption|].
  exfalso.
  pose proof (Z.pow_pos_nonneg 2 (Z.log2 x) ltac:(lia) (Z.log2_nonneg x)) as Hp2.
  assert (Hbit : Z.testbit (Z.land x (x - 1)) (Z.log2 x) = true).
  { rewrite Z.land_spec. apply andb_true_intro. split.
    - apply Z.bit_log2. assumption.
    - assert (Hlog : Z.log2 (x - 1) = Z.log2 x).
      { apply Z.log2_unique; [apply Z.log2_nonneg|].
        rewrite Z.pow_succ_r in Hhi by apply Z.log2_nonneg.
        rewrite Z.pow_succ_r by apply Z.log2_nonneg. lia. }
      rewrite <- Hlog. apply Z.bit_log2. lia. }
  rewrite Hland in Hbit. rewrite Z.bits_0 in Hbit. discriminate.
Qed.

(** [IsPowerOfTwo] holds exactly of the powers of two. *)
Lemma IsPowerOfTwo_spec (x : Z) :
  IsPowerOfTwo x = true <-> exists k, 0 <= k /\ x = 2 ^ k.
Proof.
  split; [apply IsPowerOfTwo_inv|]. intros (k & Hk & ->). apply IsPowerOfTwo_pow2. assumption.
Qed.

(** The doubling loop stops at the least power of two that is at least [m],
    provided the budget covers the doublings. *)
Lemma double_until_spec (fuel : nat) :
  forall (j : nat) (m : Z),
  m <= 2 ^ Z.of_nat j * 2 ^ Z.of_nat fuel ->
  exists k : nat,
    double_until fuel (2 ^ Z.of_nat j) m = Ok (2 ^ Z.of_nat k) /\
    (j <= k)%nat /\ m <= 2 ^ Z.of_nat k /\
    (k = j \/ 2 ^ Z.of_nat k < 2 * m).
Proof.
  induction fuel as [|fuel IH]; intros j m Hm.
  - exists j. simpl. simpl in Hm. destruct (Z.ltb_spec (2 ^ Z.of_nat j) m); [lia|].
    split; [reflexivity|]. split; [lia|]. split; [lia|]. left. reflexivity.
  - simpl double_until. destruct (Z.ltb_spec (2 ^ Z.of_nat j) m) as [Hlt|Hge].
    + assert (Hstep : 2 ^ Z.of_nat j * 2 = 2 ^ Z.of_nat (S j)).
      { rewrite Nat2Z.inj_succ, Z.pow_succ_r by lia. lia. }
      rewrite Hstep. destruct (IH (S j) m) as (k & Hrun & Hjk & Hmk & Hmin).
      { rewrite <- Hstep. rewrite Nat2Z.inj_succ, Z.pow_succ_r in Hm by lia. lia. }
      exists k. split; [assumption|]. split; [lia|]. split; [assumption|].
      right. destruct Hmin as [->|Hmin]; [|assumption]. lia.
    + exists j. split; [reflexivity|]. split; [lia|]. split; [lia|]. left. reflexivity.
Qed.

Lemma pow2_gt_lin (n : nat) : Z.of_nat n <= 2 ^ Z.of_nat n.
Proof.
  pose proof (Z.pow_gt_lin_r 2 (Z.of_nat n) ltac:(lia) ltac:(lia)). lia.
Qed.

Lemma pow2_le_mono (a c : nat) : (a <= c)%nat -> 2 ^ Z.of_nat a <= 2 ^ Z.of_nat c.
Proof. intros Hac. apply Z.pow_le_mono_r; lia. Qed.

(** The side computed by [PadToSquare] for a bound [m]. *)
Lemma pad_side (m : Z) :
  exists k : nat,
    double_until (Z.to_nat m) 1 m = Ok (2 ^ Z.of_nat k) /\
    m <= 2 ^ Z.of_nat k /\
    (forall k' : nat, m <= 2 ^ Z.of_nat k' -> 2 ^ Z.of_nat k <= 2 ^ Z.of_nat k').
Proof.
  destruct (double_until_spec (Z.to_nat m) 0 m) as (k & Hrun & _ & Hmk & Hmin).
  { change (2 ^ Z.of_nat 0) with 1. pose proof (pow2_gt_lin (Z.to_nat m)). lia. }
  exists k. change (2 ^ Z.of_nat 0) with 1 in Hrun. split; [assumption|].
  split; [assumption|]. intros k' Hk'.
  destruct Hmin as [->|Hmin]; [apply pow2_le_mono; lia|].
  destruct (decide (k <= k')%nat) as [Hle|Hgt]; [apply pow2_le_mono; assumption|].
  exfalso. assert (Hs : (S k' <= k)%nat) by lia.
  apply pow2_le_mono in Hs. rewrite Nat2Z.inj_succ, Z.pow_succ_r in Hs by lia. lia.
Qed.

(** ** Cropping and padding *)

Lemma width_nonneg (img : Image) : 0 <= width img.
Proof. unfold width. destruct (data img); lia. Qed.

Lemma height_nonneg (img : Image) : 0 <= height img.
Proof. unfold height. lia. Qed.

Lemma Resize_spec (Wd Hd : Z) (this : Image) (w h : Z) :
  rect Wd Hd (data this) -> w_ this <= Wd -> h_ this <= Hd -> 0 <= w -> 0 <= h ->
  exists out, Resize this w h = Ok out /\ rect w h (data out) /\
    w_ out = w /\ h_ out = h /\
    forall x y, 0 <= x < w -> 0 <= y < h ->
      get (data out) x y =
      if decide (x < w_ this /\ y < h_ this) then get (data this) x y else Ok black.
Proof.
  intros Hr Hwr Hhr Hw Hh. unfold Resize. rewrite Image_new_spec by assumption. simpl.
  destruct (store_loops w h w h
    (fun x y t => if (x <? w_ this) && (y <? h_ this)
                  then let* c := at_ this x y in set_at t x y c
                  else set_at t x y black)
    (fun x y => if (x <? w_ this) && (y <? h_ this)
                then match get (data this) x y with Ok c => c | Fail _ => black end
                else black)
    (mkImage (replicate (Z.to_nat h) (replicate (Z.to_nat w) black)) w h))
    as (out & Hrun & Hro & Hwo & Hho & Hcells).
  - apply rect_replicate; assumption.
  - lia.
  - lia.
  - intros x y t Hx Hy.
    destruct ((x <? w_ this) && (y <? h_ this)) eqn:Hc; [|reflexivity].
    apply andb_prop in Hc. destruct Hc as [Hc1%Z.ltb_lt Hc2%Z.ltb_lt].
    unfold at_. destruct (rect_get Wd Hd (data this) x y Hr) as [c Hget]; [lia | lia |].
    rewrite Hget. reflexivity.
  - exists out. split; [assumption|]. split; [assumption|].
    split; [assumption|]. split; [assumption|].
    intros x y Hx Hy. rewrite Hcells. rewrite decide_True by lia.
    case_decide as Hin.
    + destruct Hin as [Hd1 Hd2].
      destruct (Z.ltb_spec x (w_ this)); [|lia]. destruct (Z.ltb_spec y (h_ this)); [|lia].
      simpl. destruct (rect_get Wd Hd (data this) x y Hr) as [c Hget]; [lia | lia |].
      rewrite Hget. reflexivity.
    + destruct (Z.ltb_spec x (w_ this)); [|reflexivity].
      destruct (Z.ltb_spec y (h_ this)); [lia | reflexivity].
Qed.

Lemma PadToSquare_spec (input : Image) :
  rectangular input ->
  exists (k : nat) (p : Image),
    PadToSquare input = Ok p /\
    Z.max (width input) (height input) <= 2 ^ Z.of_nat k /\
    (forall k' : nat, Z.max (width input) (height input) <= 2 ^ Z.of_nat k' ->
                      2 ^ Z.of_nat k <= 2 ^ Z.of_nat k') /\
    rect (2 ^ Z.of_nat k) (2 ^ Z.of_nat k) (data p) /\
    w_ p = width input /\ h_ p = height input /\
    forall x y, 0 <= x < 2 ^ Z.of_nat k -> 0 <= y < 2 ^ Z.of_nat k ->
      get (data p) x y =
      if decide (x < width input /\ y < height input)
      then get (data input) x y else Ok black.
Proof.
  intros Hrect. pose proof (width_nonneg input) as HW. pose proof (height_nonneg input) as HH.
  destruct (pad_side (Z.max (width input) (height input))) as (k & Hside & Hmax & Hmin).
  pose proof (pow2_pos k) as Hpos.
  unfold PadToSquare. cbv zeta. rewrite Hside. simpl bind.
  rewrite Image_new_spec by lia. simpl bind. simpl data.
  destruct (store_loops (2 ^ Z.of_nat k) (2 ^ Z.of_nat k) (width input) (height input)
    (fun x y p => let* c := at_ input x y in set_at p x y c)
    (fun x y => match get (data input) x y with Ok c => c | Fail _ => black end)
    (mkImage (replicate (Z.to_nat (2 ^ Z.of_nat k)) (replicate (Z.to_nat (2 ^ Z.of_nat k)) black))
             (width input) (height input)))
    as (p & Hrun & Hrp & Hwp & Hhp & Hcells).
  - apply rect_replicate; lia.
  - lia.
  - lia.
  - intros x y t Hx Hy. unfold at_.
    destruct (rect_get _ _ (data input) x y Hrect) as [c Hget]; [lia | lia |].
    rewrite Hget. reflexivity.
  - exists k, p. split; [assumption|]. split; [assumption|]. split; [assumption|].
    split; [assumption|]. split; [assumption|]. split; [assumption|].
    intros x y Hx Hy. rewrite Hcells. simpl data.
    case_decide as Hin.
    + rewrite decide_True by lia.
      destruct (rect_get _ _ (data input) x y Hrect) as [c Hget]; [lia | lia |].
      rewrite Hget. reflexivity.
    + rewrite decide_False by lia. apply get_replicate; lia.
Qed.

(** Every image the program builds keeps its recorded dimensions within its
    data. *)
Lemma Image_new_recorded (w h : Z) (img : Image) :
  Image_new w h = Ok img -> recorded_ok img.
Proof.
  unfold Image_new. destruct (Z.ltb_spec w 0); [discriminate|].
  destruct (Z.ltb_spec h 0); [discriminate|]. simpl. intros [= <-].
  exists w, h. simpl. split; [apply rect_replicate; assumption | lia].
Qed.

Lemma Resize_recorded (this : Image) (w h : Z) (out : Image) :
  recorded_ok this -> Resize this w h = Ok out -> recorded_ok out.
Proof.
  intros (Wd & Hd & Hr & Hw & Hh) Hrun.
  assert (Hpos : 0 <= w /\ 0 <= h).
  { unfold Resize, Image_new in Hrun.
    destruct (Z.ltb_spec w 0); [discriminate|].
    destruct (Z.ltb_spec h 0); [discriminate|]. lia. }
  destruct (Resize_spec Wd Hd this w h Hr Hw Hh) as (out' & Hrun' & Hro & Hwo & Hho & _);
    [lia | lia |].
  rewrite Hrun in Hrun'. inversion Hrun'. subst out'.
  exists w, h. split; [assumption | lia].
Qed.

Lemma PadToSquare_recorded (input p : Image) :
  rectangular input -> PadToSquare input = Ok p -> recorded_ok p.
Proof.
  intros Hrect Hrun.
  destruct (PadToSquare_spec input Hrect)
    as (k & p' & Hrun' & Hmax & _ & Hrp & Hwp & Hhp & _).
  rewrite Hrun in Hrun'. inversion Hrun'. subst p'.
  exists (2 ^ Z.of_nat k), (2 ^ Z.of_nat k). split; [assumption | lia].
Qed.

(** C5: for a W x H grid, [PadToSquare] returns an S x S grid, S the least
    power of two with S >= max(W, H) and S >= 1, whose top-left W x H block
    equals the source cell for cell and whose other cells are (0,0,0); a
    3 x 5 input gives S = 8, and an input that is already square with a
    power-of-two side comes back with the same cells. *)
Theorem PadToSquare_correct (input : Image) :
  rectangular input ->
  exists (k : nat) (p : Image),
    PadToSquare input = Ok p /\
    1 <= 2 ^ Z.of_nat k /\
    Z.max (width input) (height input) <= 2 ^ Z.of_nat k /\
    (forall k' : nat, Z.max (width input) (height input) <= 2 ^ Z.of_nat k' ->
                      2 ^ Z.of_nat k <= 2 ^ Z.of_nat k') /\
    rect (2 ^ Z.of_nat k) (2 ^ Z.of_nat k) (data p) /\
    (forall x y, 0 <= x < width input -> 0 <= y < height input ->
       exists c, get (data input) x y = Ok c /\ get (data p) x y = Ok c) /\
    (forall x y, 0 <= x < 2 ^ Z.of_nat k -> 0 <= y < 2 ^ Z.of_nat k ->
       ~ (x < width input /\ y < height input) -> get (data p) x y = Ok black) /\
    (width input = 3 -> height input = 5 -> 2 ^ Z.of_nat k = 8) /\
    (width input = height input -> IsPowerOfTwo (width input) = true ->
       data p = data input /\ w_ p = width input /\ h_ p = height input).
Proof.
  intros Hrect.
  destruct (PadToSquare_spec input Hrect)
    as (k & p & Hrun & Hmax & Hmin & Hrp & Hwp & Hhp & Hcells).
  pose proof (pow2_pos k) as Hpos.
  exists k, p. split; [assumption|]. split; [assumption|]. split; [assumption|].
  split; [assumption|]. split; [assumption|]. split; [|split; [|split]].
  - intros x y Hx Hy.
    destruct (rect_get _ _ (data input) x y Hrect) as [c Hget]; [lia | lia |].
    exists c. split; [assumption|]. rewrite Hcells by lia.
    rewrite decide_True by lia. assumption.
  - intros x y Hx Hy Hout. rewrite Hcells by lia. rewrite decide_False by assumption.
    reflexivity.
  - intros H3 H5. rewrite H3, H5 in Hmax, Hmin.
    pose proof (Hmin 3%nat ltac:(simpl; lia)) as Hle. change (2 ^ Z.of_nat 3) with 8 in Hle.
    destruct (decide (3 <= k)%nat) as [Hk|Hk].
    + pose proof (pow2_le_mono 3 k Hk) as Hge. change (2 ^ Z.of_nat 3) with 8 in Hge. lia.
    + assert (Hk2 : (k <= 2)%nat) by lia.
      pose proof (pow2_le_mono k 2 Hk2) as Hsmall.
      change (2 ^ Z.of_nat 2) with 4 in Hsmall. lia.
  - intros Hsq Hpow. apply IsPowerOfTwo_inv in Hpow. destruct Hpow as (j & Hj & Hwj).
    assert (Hside : 2 ^ Z.of_nat k = width input).
    { pose proof (Hmin (Z.to_nat j)) as Hle. rewrite Z2Nat.id in Hle by assumption.
      rewrite <- Hwj in Hle. lia. }
    split; [|split; assumption].
    rewrite Hside in Hrp. unfold rectangular in Hrect. rewrite <- Hsq in Hrect.
    apply (rect_ext _ _ _ _ Hrp Hrect). intros i j0 Hi Hj0.
    rewrite Hcells by lia. rewrite decide_True by lia. reflexivity.
Qed.

(** C6: cropping the result of [PadToSquare] back to the width and height of
    the source gives back exactly the source's cells, with those
    dimensions. *)
Theorem pad_then_crop (input : Image) :
  rectangular input ->
  exists p out,
    PadToSquare input = Ok p /\
    Resize p (width input) (height input) = Ok out /\
    data out = data input /\ w_ out = width input /\ h_ out = height input.
Proof.
  intros Hrect. pose proof (width_nonneg input) as HW. pose proof (height_nonneg input) as HH.
  destruct (PadToSquare_spec input Hrect)
    as (k & p & Hrun & Hmax & Hmin & Hrp & Hwp & Hhp & Hcells).
  destruct (Resize_spec _ _ p (width input) (height input) Hrp)
    as (out & Hres & Hro & Hwo & Hho & Hout); try lia.
  exists p, out. split; [assumption|]. split; [assumption|].
  split; [|split; assumption].
  apply (rect_ext _ _ _ _ Hro Hrect). intros i j Hi Hj.
  rewrite Hout by lia. rewrite Hwp, Hhp. rewrite decide_True by lia.
  rewrite Hcells by lia. rewrite decide_True by lia. reflexivity.
Qed.

(** C7 (amended): [Encode] always uses tolerance 10.  For an N x N grid of
    8-bit pixels, N = 2^k, whose pixels all equal [c] except one pixel [d]
    at squared distance more than 100 from [c], [Encode] returns a tree in
    which the leaf of that pixel is at depth k, has a block of side 1 and
    holds [d]; every other pixel lies in a leaf holding [c], at a depth m
    between 1 and k and with a block of side 2^(k-m), that is a child of a
    node on the path to the odd pixel: the block of side 2 * 2^(k-m) around
    it contains the odd pixel, in another quadrant. *)
Theorem lone_pixel_tree (k : nat) (img : Grid) (c d : Color) (px py : Z) :
  rect (2 ^ Z.of_nat k) (2 ^ Z.of_nat k) img ->
  channel_ok c -> channel_ok d ->
  0 <= px < 2 ^ Z.of_nat k -> 0 <= py < 2 ^ Z.of_nat k ->
  get img px py = Ok d ->
  (forall i j, 0 <= i < 2 ^ Z.of_nat k -> 0 <= j < 2 ^ Z.of_nat k ->
               (i, j) <> (px, py) -> get img i j = Ok c) ->
  default_tolerance * default_tolerance < distanceSquared c d ->
  exists t, Encode img 0 0 (2 ^ Z.of_nat k) = Ok t /\
    leaf_at t 0 0 (2 ^ Z.of_nat k) px py = Some (k, 1, d) /\
    forall i j, 0 <= i < 2 ^ Z.of_nat k -> 0 <= j < 2 ^ Z.of_nat k ->
                (i, j) <> (px, py) ->
      exists (m : nat) (a b0 : Z),
        (1 <= m <= k)%nat /\
        leaf_at t 0 0 (2 ^ Z.of_nat k) i j = Some (m, 2 ^ Z.of_nat (k - m), c) /\
        splits 0 0 (2 ^ Z.of_nat (k - m)) a b0 i j px py.
Proof.
  intros Hr _ _ Hpx Hpy Hd Hbg Hfar. pose proof (pow2_pos k) as Hpos.
  assert (Hfit : fits (2 ^ Z.of_nat k) (2 ^ Z.of_nat k) 0 0 (2 ^ Z.of_nat k)).
  { unfold fits. lia. }
  assert (Hpin : in_region 0 0 (2 ^ Z.of_nat k) px py) by (unfold in_region; lia).
  destruct (Encode_lone_pixel_exact _ _ img Hr c d px py Hd Hfar k 0 0 Hfit Hpin)
    as (t & Henc & Hleaf & Hothers).
  { intros i j [Hi Hj] Hne. apply Hbg; [lia | lia | assumption]. }
  exists t. split; [assumption|]. split; [assumption|].
  intros i j Hi Hj Hne. apply Hothers; [unfold in_region; lia | assumption].
Qed.

(** C9: [Resize] to a non-negative width and height returns a grid of that
    size also when they exceed the recorded dimensions [w_], [h_] of the
    source: a cell inside the recorded dimensions is copied from the source,
    every other cell is (0,0,0), and no failure is raised. *)
Theorem Resize_oversize (Wd Hd : Z) (this : Image) (w h : Z) :
  rect Wd Hd (data this) -> w_ this <= Wd -> h_ this <= Hd -> 0 <= w -> 0 <= h ->
  exists out, Resize this w h = Ok out /\ rect w h (data out) /\
    forall x y, 0 <= x < w -> 0 <= y < h ->
      (x < w_ this /\ y < h_ this ->
         exists c, get (data this) x y = Ok c /\ get (data out) x y = Ok c) /\
      (~ (x < w_ this /\ y < h_ this) -> get (data out) x y = Ok black).
Proof.
  intros Hr Hwr Hhr Hw Hh.
  destruct (Resize_spec Wd Hd this w h Hr Hwr Hhr Hw Hh)
    as (out & Hrun & Hro & _ & _ & Hcells).
  exists out. split; [assumption|]. split; [assumption|].
  intros x y Hx Hy. split.
  - intros Hin. destruct (rect_get Wd Hd (data this) x y Hr) as [c Hget]; [lia | lia |].
    exists c. split; [assumption|]. rewrite Hcells by assumption.
    rewrite decide_True by assumption. assumption.
  - intros Hout. rewrite Hcells by assumption. rewrite decide_False by assumption.
    reflexivity.
Qed.

(** C10: [PadToSquare] of an image with no rows (0 x 0, whatever its recorded
    fields) is the 1 x 1 grid whose single cell is (0,0,0): the side is 1
    although max(W, H) = 0, and the new cell is zero-initialised. *)
Theorem PadToSquare_empty (w h : Z) :
  PadToSquare (mkImage [] w h) = Ok (mkImage [[mkColor 0 0 0]] 0 0).
Proof. reflexivity. Qed.

(** ** Concrete runs *)

Lemma grid_near_pixels_ok : pixels_ok grid_near.
Proof.
  assert (R : rect 2 2 grid_near) by rect_tac.
  intros i j c Hc. destruct (get_in_rect 2 2 _ _ _ _ R Hc) as [Hi Hj].
  assert (Ei : i = 0 \/ i = 1) by lia. assert (Ej : j = 0 \/ j = 1) by lia.
  destruct Ei as [-> | ->], Ej as [-> | ->];
    vm_compute in Hc; inversion Hc; unfold channel_ok; simpl; lia.
Qed.

Lemma grid_far_pixels_ok : pixels_ok grid_far.
Proof.
  assert (R : rect 2 2 grid_far) by rect_tac.
  intros i j c Hc. destruct (get_in_rect 2 2 _ _ _ _ R Hc) as [Hi Hj].
  assert (Ei : i = 0 \/ i = 1) by lia. assert (Ej : j = 0 \/ j = 1) by lia.
  destruct Ei as [-> | ->], Ej as [-> | ->];
    vm_compute in Hc; inversion Hc; unfold channel_ok; simpl; lia.
Qed.

Lemma roundtrip_within_tolerance_witness :
  rect (2 ^ Z.of_nat 1) (2 ^ Z.of_nat 1) grid_near /\
  rect (2 ^ Z.of_nat 1) (2 ^ Z.of_nat 1) target2 /\
  pixels_ok grid_near /\
  exists t out,
    Encode grid_near 0 0 (2 ^ Z.of_nat 1) = Ok t /\
    Decode target2 t 0 0 (2 ^ Z.of_nat 1) = Ok out /\
    rect (2 ^ Z.of_nat 1) (2 ^ Z.of_nat 1) out /\
    forall i j, 0 <= i < 2 ^ Z.of_nat 1 -> 0 <= j < 2 ^ Z.of_nat 1 ->
    exists p q,
      get grid_near i j = Ok p /\ get out i j = Ok q /\
      distanceSquared p q <= default_tolerance * default_tolerance.
Proof.
  split; [rect_tac|]. split; [rect_tac|]. split; [exact grid_near_pixels_ok|].
  apply (roundtrip_within_tolerance 1 grid_near target2);
    [rect_tac | rect_tac | exact grid_near_pixels_ok].
Defined.


(** At its own tolerance, 10, the encoder is lossy: the 2 x 2 grid
    [grid_near] is not uniform at tolerance 0, yet [Encode] returns a single
    leaf and the decoded grid differs from the original. *)
Lemma roundtrip_not_exact :
  rect 2 2 grid_near /\ rect 2 2 target2 /\
  isUniform grid_near 0 0 2 0 = Ok false /\
  Encode grid_near 0 0 2 = Ok (QuadLeaf black) /\
  Decode target2 (QuadLeaf black) 0 0 2 = Ok [[black; black]; [black; black]] /\
  [[black; black]; [black; black]] <> grid_near.
Proof.
  split; [rect_tac|]. split; [rect_tac|]. split; [reflexivity|].
  split; [reflexivity|]. split; [reflexivity|]. discriminate.
Qed.

Lemma grid_far_separated : separated grid_far.
Proof.
  assert (R : rect 2 2 grid_far) by rect_tac.
  intros i j i' j' p q Hp Hq Hd.
  destruct (get_in_rect 2 2 _ _ _ _ R Hp) as [Hi Hj].
  destruct (get_in_rect 2 2 _ _ _ _ R Hq) as [Hi' Hj'].
  assert (Ei : i = 0 \/ i = 1) by lia. assert (Ej : j = 0 \/ j = 1) by lia.
  assert (Ei' : i' = 0 \/ i' = 1) by lia. assert (Ej' : j' = 0 \/ j' = 1) by lia.
  destruct Ei as [-> | ->], Ej as [-> | ->], Ei' as [-> | ->], Ej' as [-> | ->];
    vm_compute in Hp, Hq; inversion Hp; inversion Hq; subst p q;
    try reflexivity; exfalso; apply Hd; reflexivity.
Qed.

Lemma Encode_leaf_or_quadrants_witness :
  rect 2 2 grid_far /\ pixels_ok grid_far /\ fits 2 2 0 0 (2 ^ Z.of_nat 1) /\
  exists ref, get grid_far 0 0 = Ok ref /\
    (within grid_far ref default_tolerance 0 0 (2 ^ Z.of_nat 1) ->
       Encode grid_far 0 0 (2 ^ Z.of_nat 1) = Ok (QuadLeaf ref)) /\
    (~ within grid_far ref default_tolerance 0 0 (2 ^ Z.of_nat 1) ->
       let half := Z.quot (2 ^ Z.of_nat 1) 2 in
       exists nw ne se sw,
         Encode grid_far 0 0 half = Ok nw /\
         Encode grid_far (0 + half) 0 half = Ok ne /\
         Encode grid_far (0 + half) (0 + half) half = Ok se /\
         Encode grid_far 0 (0 + half) half = Ok sw /\
         Encode grid_far 0 0 (2 ^ Z.of_nat 1) = Ok (QuadNode nw ne se sw)).
Proof.
  split; [rect_tac|]. split; [exact grid_far_pixels_ok|]. split; [fits_tac|].
  apply (Encode_leaf_or_quadrants 2 2 grid_far 0 0 1);
    [rect_tac | exact grid_far_pixels_ok | fits_tac].
Defined.



Lemma PadToSquare_correct_witness :
  rectangular tall /\
  exists (k : nat) (p : Image),
    PadToSquare tall = Ok p /\
    1 <= 2 ^ Z.of_nat k /\
    Z.max (width tall) (height tall) <= 2 ^ Z.of_nat k /\
    (forall k' : nat, Z.max (width tall) (height tall) <= 2 ^ Z.of_nat k' ->
                      2 ^ Z.of_nat k <= 2 ^ Z.of_nat k') /\
    rect (2 ^ Z.of_nat k) (2 ^ Z.of_nat k) (data p) /\
    (forall x y, 0 <= x < width tall -> 0 <= y < height tall ->
       exists c, get (data tall) x y = Ok c /\ get (data p) x y = Ok c) /\
    (forall x y, 0 <= x < 2 ^ Z.of_nat k -> 0 <= y < 2 ^ Z.of_nat k ->
       ~ (x < width tall /\ y < height tall) -> get (data p) x y = Ok black) /\
    (width tall = 3 -> height tall = 5 -> 2 ^ Z.of_nat k = 8) /\
    (width tall = height tall -> IsPowerOfTwo (width tall) = true ->
       data p = data tall /\ w_ p = width tall /\ h_ p = height tall).
Proof.
  assert (R : rectangular tall) by (unfold rectangular; rect_tac).
  split; [exact R|]. apply (PadToSquare_correct tall R).
Defined.

Lemma pad_then_crop_witness :
  rectangular tall /\
  exists p out,
    PadToSquare tall = Ok p /\
    Resize p (width tall) (height tall) = Ok out /\
    data out = data tall /\ w_ out = width tall /\ h_ out = height tall.
Proof.
  assert (R : rectangular tall) by (unfold rectangular; rect_tac).
  split; [exact R|]. apply (pad_then_crop tall R).
Defined.

(** C7, as stated, fails on the code: in the 2 x 2 grid [grid_far] the
    three other pixels lie in leaves at depth 1, not 0; and in [grid_near],
    whose odd pixel is within tolerance 10 of the others, the whole grid is a
    single leaf, so that pixel is at depth 0 and is not isolated. *)
Lemma lone_pixel_leaves_below_root :
  Encode grid_far 0 0 2 =
    Ok (QuadNode (QuadLeaf black) (QuadLeaf far) (QuadLeaf black) (QuadLeaf black)) /\
  leaf_at (QuadNode (QuadLeaf black) (QuadLeaf far) (QuadLeaf black) (QuadLeaf black))
          0 0 2 1 0 = Some (1%nat, 1, far) /\
  leaf_at (QuadNode (QuadLeaf black) (QuadLeaf far) (QuadLeaf black) (QuadLeaf black))
          0 0 2 0 0 = Some (1%nat, 1, black) /\
  Encode grid_near 0 0 2 = Ok (QuadLeaf black) /\
  leaf_at (QuadLeaf black) 0 0 2 1 0 = Some (0%nat, 2, black).
Proof. repeat split; reflexivity. Qed.

Lemma lone_pixel_tree_witness :
  rect (2 ^ Z.of_nat 1) (2 ^ Z.of_nat 1) grid_far /\
  channel_ok black /\ channel_ok far /\
  0 <= 1 < 2 ^ Z.of_nat 1 /\ 0 <= 0 < 2 ^ Z.of_nat 1 /\
  get grid_far 1 0 = Ok far /\
  (forall i j, 0 <= i < 2 ^ Z.of_nat 1 -> 0 <= j < 2 ^ Z.of_nat 1 ->
               (i, j) <> (1, 0) -> get grid_far i j = Ok black) /\
  default_tolerance * default_tolerance < distanceSquared black far /\
  exists t, Encode grid_far 0 0 (2 ^ Z.of_nat 1) = Ok t /\
    leaf_at t 0 0 (2 ^ Z.of_nat 1) 1 0 = Some (1%nat, 1, far) /\
    forall i j, 0 <= i < 2 ^ Z.of_nat 1 -> 0 <= j < 2 ^ Z.of_nat 1 ->
                (i, j) <> (1, 0) ->
      exists (m : nat) (a b0 : Z),
        (1 <= m <= 1)%nat /\
        leaf_at t 0 0 (2 ^ Z.of_nat 1) i j = Some (m, 2 ^ Z.of_nat (1 - m), black) /\
        splits 0 0 (2 ^ Z.of_nat (1 - m)) a b0 i j 1 0.
Proof.
  assert (B : forall i j, 0 <= i < 2 ^ Z.of_nat 1 -> 0 <= j < 2 ^ Z.of_nat 1 ->
                          (i, j) <> (1, 0) -> get grid_far i j = Ok black).
  { intros i j Hi Hj Hne. simpl in Hi, Hj.
    assert (Ei : i = 0 \/ i = 1) by lia. assert (Ej : j = 0 \/ j = 1) by lia.
    destruct Ei as [-> | ->], Ej as [-> | ->]; try reflexivity.
    exfalso. apply Hne. reflexivity. }
  assert (Cb : channel_ok black) by (unfold channel_ok; simpl; lia).
  assert (Cf : channel_ok far) by (unfold channel_ok; simpl; lia).
  split; [rect_tac|]. split; [exact Cb|]. split; [exact Cf|].
  split; [simpl; lia|]. split; [simpl; lia|].
  split; [reflexivity|]. split; [exact B|]. split; [reflexivity|].
  apply (lone_pixel_tree 1 grid_far black far 1 0);
    [rect_tac | exact Cb | exact Cf | simpl; lia | simpl; lia | reflexivity
    | exact B | reflexivity].
Defined.

Lemma Decode_frame_witness :
  fits 2 2 0 0 (2 ^ Z.of_nat 1) /\
  exists w : Z -> Z -> option Color,
    (forall i j c, w i j = Some c -> in_region 0 0 (2 ^ Z.of_nat 1) i j) /\
    forall target, rect 2 2 target ->
      exists out, Decode target (QuadLeaf far) 0 0 (2 ^ Z.of_nat 1) = Ok out /\
        rect 2 2 out /\
        (forall i j, ~ in_region 0 0 (2 ^ Z.of_nat 1) i j ->
                     get out i j = get target i j) /\
        (forall i j, get out i j =
                     match w i j with Some c => Ok c | None => get target i j end).
Proof.
  split; [fits_tac|]. apply (Decode_frame 2 2 (QuadLeaf far) 0 0 1). fits_tac.
Defined.

Lemma Resize_oversize_witness :
  rect 3 2 (data wide) /\ w_ wide <= 3 /\ h_ wide <= 2 /\ 0 <= 4 /\ 0 <= 3 /\
  exists out, Resize wide 4 3 = Ok out /\ rect 4 3 (data out) /\
    forall x y, 0 <= x < 4 -> 0 <= y < 3 ->
      (x < w_ wide /\ y < h_ wide ->
         exists c, get (data wide) x y = Ok c /\ get (data out) x y = Ok c) /\
      (~ (x < w_ wide /\ y < h_ wide) -> get (data out) x y = Ok black).
Proof.
  split; [rect_tac|]. split; [simpl; lia|]. split; [simpl; lia|].
  split; [lia|]. split; [lia|].
  apply (Resize_oversize 3 2 wide 4 3); [rect_tac | simpl; lia | simpl; lia | lia | lia].
Defined.

(** * Further properties of the grid operations *)

Lemma rect_dims (Wd Hd : Z) (img : Image) :
  rect Wd Hd (data img) -> 1 <= Hd -> width img = Wd /\ height img = Hd.
Proof.
  intros [Hlen Hall] Hpos. unfold width, height.
  destruct (data img) as [|row rows]; simpl in Hlen; [lia|].
  split; [|exact Hlen]. inversion Hall. assumption.
Qed.

Lemma Image_eq (a c : Image) :
  data a = data c -> w_ a = w_ c -> h_ a = h_ c -> a = c.
Proof. destruct a, c. simpl. intros -> -> ->. reflexivity. Qed.

(** X1: [IsPowerOfTwo], written with [x & (x - 1)], holds exactly of the
    integers 2^k with k >= 0; in particular it rejects 0 and every negative
    number. *)
Theorem IsPowerOfTwo_exact (x : Z) :
  (IsPowerOfTwo x = true <-> exists k, 0 <= k /\ x = 2 ^ k) /\
  (x <= 0 -> IsPowerOfTwo x = false).
Proof.
  split; [split|].
  - apply IsPowerOfTwo_inv.
  - intros (k & Hk & ->). apply IsPowerOfTwo_pow2. assumption.
  - intros Hx. unfold IsPowerOfTwo. destruct (Z.ltb_spec 0 x); [lia | reflexivity].
Qed.

(** X2: on an image whose rows all have the same length, [IsValidImageSize]
    holds exactly when the grid is square with a power-of-two side. *)
Theorem IsValidImageSize_exact (img : Image) :
  rectangular img ->
  (IsValidImageSize img = true <->
   exists k : nat, rect (2 ^ Z.of_nat k) (2 ^ Z.of_nat k) (data img)).
Proof.
  intros Hrect. unfold IsValidImageSize. split.
  - intros [Hsq Hpow]%andb_prop. apply Z.eqb_eq in Hsq.
    apply IsPowerOfTwo_inv in Hpow. destruct Hpow as (j & Hj & Hw).
    exists (Z.to_nat j). rewrite Z2Nat.id by assumption. rewrite <- Hw.
    unfold rectangular in Hrect. rewrite <- Hsq in Hrect. assumption.
  - intros [k Hr]. pose proof (pow2_pos k) as Hpos.
    destruct (rect_dims _ _ img Hr Hpos) as [-> ->].
    apply andb_true_intro. split; [apply Z.eqb_refl|].
    apply IsPowerOfTwo_pow2. lia.
Qed.

Lemma IsValidImageSize_exact_witness :
  rectangular (mkImage grid_far 2 2) /\
  (IsValidImageSize (mkImage grid_far 2 2) = true <->
   exists k : nat, rect (2 ^ Z.of_nat k) (2 ^ Z.of_nat k) (data (mkImage grid_far 2 2))).
Proof.
  assert (R : rectangular (mkImage grid_far 2 2)) by (unfold rectangular; rect_tac).
  split; [exact R|]. apply (IsValidImageSize_exact _ R).
Defined.

(** X3: what [PadToSquare] returns always passes [IsValidImageSize], so the
    driver may hand it to [Encode]; and its rows all have the same length. *)
Theorem PadToSquare_valid (input : Image) :
  rectangular input ->
  exists p, PadToSquare input = Ok p /\ IsValidImageSize p = true /\ rectangular p.
Proof.
  intros Hrect.
  destruct (PadToSquare_spec input Hrect) as (k & p & Hrun & _ & _ & Hrp & _).
  pose proof (pow2_pos k) as Hpos.
  destruct (rect_dims _ _ p Hrp Hpos) as [Hw Hh].
  exists p. split; [assumption|]. split.
  - unfold IsValidImageSize. rewrite Hw, Hh. apply andb_true_intro.
    split; [apply Z.eqb_refl | apply IsPowerOfTwo_pow2; lia].
  - unfold rectangular. rewrite Hw, Hh. assumption.
Qed.

Lemma PadToSquare_valid_witness :
  rectangular tall /\
  exists p, PadToSquare tall = Ok p /\ IsValidImageSize p = true /\ rectangular p.
Proof.
  assert (R : rectangular tall) by (unfold rectangular; rect_tac).
  split; [exact R|]. apply (PadToSquare_valid tall R).
Defined.

(** X4: padding a non-empty image less than doubles its larger dimension:
    the side S of the result satisfies max(W, H) <= S < 2 * max(W, H). *)
Theorem PadToSquare_less_than_double (input : Image) :
  rectangular input -> 1 <= Z.max (width input) (height input) ->
  exists p, PadToSquare input = Ok p /\
    width p = height p /\
    Z.max (width input) (height input) <= height p < 2 * Z.max (width input) (height input).
Proof.
  intros Hrect Hne.
  destruct (PadToSquare_spec input Hrect) as (k & p & Hrun & Hmax & Hmin & Hrp & _).
  pose proof (pow2_pos k) as Hpos.
  destruct (rect_dims _ _ p Hrp Hpos) as [Hw Hh].
  exists p. split; [assumption|]. rewrite Hw, Hh. split; [reflexivity|].
  split; [assumption|].
  destruct k as [|k]; [simpl; lia|].
  destruct (Z.lt_ge_cases (2 ^ Z.of_nat (S k)) (2 * Z.max (width input) (height input)))
    as [Hlt|Hge]; [assumption|].
  exfalso. rewrite Nat2Z.inj_succ, Z.pow_succ_r in Hge by lia.
  pose proof (Hmin k ltac:(lia)) as Hle.
  rewrite Nat2Z.inj_succ, Z.pow_succ_r in Hle by lia.
  pose proof (pow2_pos k). lia.
Qed.

Lemma PadToSquare_less_than_double_witness :
  rectangular tall /\ 1 <= Z.max (width tall) (height tall) /\
  exists p, PadToSquare tall = Ok p /\
    width p = height p /\
    Z.max (width tall) (height tall) <= height p < 2 * Z.max (width tall) (height tall).
Proof.
  assert (R : rectangular tall) by (unfold rectangular; rect_tac).
  assert (M : 1 <= Z.max (width tall) (height tall)) by (unfold width, height; simpl; lia).
  split; [exact R|]. split; [exact M|].
  apply (PadToSquare_less_than_double tall R M).
Defined.

(** X5: [Resize] to the image's own width and height returns the image
    unchanged, when its rows all have the same length and its recorded
    dimensions are the actual ones. *)
Theorem Resize_same_size (img : Image) :
  rectangular img -> w_ img = width img -> h_ img = height img ->
  Resize img (width img) (height img) = Ok img.
Proof.
  intros Hrect Hw Hh.
  pose proof (width_nonneg img) as HW. pose proof (height_nonneg img) as HH.
  destruct (Resize_spec _ _ img (width img) (height img) Hrect)
    as (out & Hrun & Hro & Hwo & Hho & Hcells); try lia.
  rewrite Hrun. f_equal. apply Image_eq; [|congruence|congruence].
  apply (rect_ext _ _ _ _ Hro Hrect). intros i j Hi Hj.
  rewrite Hcells by lia. rewrite decide_True by lia. reflexivity.
Qed.

Lemma Resize_same_size_witness :
  rectangular wide /\ w_ wide = width wide /\ h_ wide = height wide /\
  Resize wide (width wide) (height wide) = Ok wide.
Proof.
  assert (R : rectangular wide) by (unfold rectangular; rect_tac).
  split; [exact R|]. split; [reflexivity|]. split; [reflexivity|].
  apply (Resize_same_size wide R); reflexivity.
Defined.

(** X6: cropping twice is cropping once: after [Resize] to w1 x h1, a
    [Resize] to a size w2 <= w1, h2 <= h1 gives the same image as a direct
    [Resize] to w2 x h2. *)
Theorem Resize_twice (this : Image) (w1 h1 w2 h2 : Z) :
  recorded_ok this -> 0 <= w2 <= w1 -> 0 <= h2 <= h1 ->
  exists mid out,
    Resize this w1 h1 = Ok mid /\
    Resize mid w2 h2 = Ok out /\ Resize this w2 h2 = Ok out.
Proof.
  intros (Wd & Hd & Hr & Hw & Hh) Hw2 Hh2.
  destruct (Resize_spec Wd Hd this w1 h1 Hr Hw Hh)
    as (mid & Hmid & Hrm & Hwm & Hhm & Hcm); [lia | lia |].
  destruct (Resize_spec w1 h1 mid w2 h2 Hrm)
    as (out & Hout & Hrout & Hwout & Hhout & Hcout); [lia | lia | lia | lia |].
  destruct (Resize_spec Wd Hd this w2 h2 Hr Hw Hh)
    as (dir & Hdir & Hrdir & Hwdir & Hhdir & Hcdir); [lia | lia |].
  exists mid, out. split; [assumption|]. split; [assumption|].
  rewrite Hdir. f_equal. apply Image_eq; [|congruence|congruence].
  apply (rect_ext _ _ _ _ Hrdir Hrout). intros i j Hi Hj.
  rewrite Hcdir, Hcout by lia. rewrite Hwm, Hhm.
  rewrite (decide_True (P := i < w1 /\ j < h1)) by lia.
  rewrite Hcm by lia. reflexivity.
Qed.

Lemma Resize_twice_witness :
  recorded_ok wide /\ 0 <= 2 <= 4 /\ 0 <= 1 <= 3 /\
  exists mid out,
    Resize wide 4 3 = Ok mid /\
    Resize mid 2 1 = Ok out /\ Resize wide 2 1 = Ok out.
Proof.
  assert (R : recorded_ok wide).
  { exists 3, 2. split; [rect_tac | simpl; lia]. }
  split; [exact R|]. split; [lia|]. split; [lia|].
  apply (Resize_twice wide 4 3 2 1 R); lia.
Defined.

(** * Further properties of the encoder and the decoder *)

(** The tree of a power-of-two region: its size, and for every cell the leaf
    covering it, whose color is the pixel at a corner up and left of the
    cell, within tolerance of the cell's pixel. *)
Lemma Encode_blocks (W H : Z) (img : Grid) (k : nat) :
  rect W H img ->
  forall x y, fits W H x y (2 ^ Z.of_nat k) ->
  exists t, Encode img x y (2 ^ Z.of_nat k) = Ok t /\
    (tree_depth t <= k)%nat /\
    Z.of_nat (leaf_count t) <= 2 ^ Z.of_nat k * 2 ^ Z.of_nat k /\
    forall i j, in_region x y (2 ^ Z.of_nat k) i j ->
    exists d s c p i0 j0,
      leaf_at t x y (2 ^ Z.of_nat k) i j = Some (d, s, c) /\
      get img i j = Ok p /\ get img i0 j0 = Ok c /\
      x <= i0 <= i /\ y <= j0 <= j /\
      distanceSquared c p <= default_tolerance * default_tolerance.
Proof.
  intros img_rect. induction k as [|k IH]; intros x y Hfit.
  - destruct (region_corner W H img img_rect x y _ Hfit) as [ref Href];
      [pose proof (pow2_pos 0); lia|].
    assert (Hone : 2 ^ Z.of_nat 0 <= 1) by (simpl; lia).
    pose proof (isUniform_small_true img x y _ default_tolerance ref Hone Href) as Hu.
    exists (QuadLeaf ref). split.
    { rewrite Encode_eq, Hu. simpl. rewrite Href. reflexivity. }
    split; [simpl; lia|]. split; [simpl; lia|].
    intros i j Hin. exists O, (2 ^ Z.of_nat 0), ref, ref, x, y.
    simpl leaf_at. rewrite decide_True by assumption.
    destruct Hin as [Hi Hj]. simpl in Hi, Hj. assert (i = x /\ j = y) as [-> ->] by lia.
    rewrite distanceSquared_self. unfold default_tolerance.
    repeat split; try assumption; try reflexivity; lia.
  - pose proof (pow2_pos (S k)) as Hpos. pose proof (pow2_pos k) as Hposk.
    assert (Hsz : 2 ^ Z.of_nat (S k) = 2 * 2 ^ Z.of_nat k).
    { rewrite Nat2Z.inj_succ, Z.pow_succ_r by lia. reflexivity. }
    destruct (region_corner W H img img_rect x y _ Hfit) as [ref Href]; [lia|].
    destruct (isUniform_spec W H img x y (2 ^ Z.of_nat (S k)) default_tolerance ref
                img_rect Hfit Href) as [[_ Hw] | [_ Hw]].
    + exists (QuadLeaf ref). split; [apply (Encode_leaf W H img img_rect); assumption|].
      split; [simpl; lia|]. split; [simpl leaf_count; nia|].
      intros i j Hin. destruct Hfit as (Hx & Hy & Hs & HW & HH).
      destruct (rect_get W H img i j img_rect) as [p Hp];
        [unfold in_region in Hin; lia | unfold in_region in Hin; lia |].
      exists O, (2 ^ Z.of_nat (S k)), ref, p, x, y. simpl leaf_at.
      rewrite decide_True by assumption. unfold in_region in Hin.
      repeat split; try assumption; try lia. apply (Hw i j p); [exact Hin | assumption].
    + destruct (Encode_node W H img img_rect x y _ ref Hfit Href Hw) as [_ Heq].
      destruct (fits_quadrants _ _ _ _ _ Hfit) as (F1 & F2 & F3 & F4).
      cbv zeta in F1, F2, F3, F4, Heq. rewrite half_pow2 in F1, F2, F3, F4, Heq.
      destruct (IH _ _ F1) as (t1 & E1 & D1 & C1 & L1).
      destruct (IH _ _ F2) as (t2 & E2 & D2 & C2 & L2).
      destruct (IH _ _ F3) as (t3 & E3 & D3 & C3 & L3).
      destruct (IH _ _ F4) as (t4 & E4 & D4 & C4 & L4).
      exists (QuadNode t1 t2 t3 t4). split.
      { rewrite Heq, E1. simpl. rewrite E2. simpl. rewrite E3. simpl.
        rewrite E4. reflexivity. }
      split; [simpl; lia|]. split.
      { simpl leaf_count. rewrite Hsz. rewrite !Nat2Z.inj_add. nia. }
      intros i j Hin.
      assert (Hq : in_region x y (2 ^ Z.of_nat k) i j \/
                   in_region (x + 2 ^ Z.of_nat k) y (2 ^ Z.of_nat k) i j \/
                   in_region (x + 2 ^ Z.of_nat k) (y + 2 ^ Z.of_nat k) (2 ^ Z.of_nat k) i j \/
                   in_region x (y + 2 ^ Z.of_nat k) (2 ^ Z.of_nat k) i j).
      { unfold in_region in *. lia. }
      assert (Hsel : forall d s c,
                leaf_at t1 x y (2 ^ Z.of_nat k) i j = Some (d, s, c) \/
                leaf_at t2 (x + 2 ^ Z.of_nat k) y (2 ^ Z.of_nat k) i j = Some (d, s, c) \/
                leaf_at t3 (x + 2 ^ Z.of_nat k) (y + 2 ^ Z.of_nat k) (2 ^ Z.of_nat k) i j
                  = Some (d, s, c) \/
                leaf_at t4 x (y + 2 ^ Z.of_nat k) (2 ^ Z.of_nat k) i j = Some (d, s, c) ->
                leaf_at (QuadNode t1 t2 t3 t4) x y (2 ^ Z.of_nat (S k)) i j
                  = Some (S d, s, c)).
      { intros d s c Hor.
        pose proof (leaf_at_quadrant t1 t2 t3 t4 x y (2 ^ Z.of_nat (S k)) i j d s c
                      ltac:(lia)) as Hl.
        cbv zeta in Hl. rewrite half_pow2 in Hl. apply Hl. assumption. }
      destruct Hq as [Hq | [Hq | [Hq | Hq]]].
      * destruct (L1 i j Hq) as (d & s & c & p & i0 & j0 & Hl & Hp & Hc & Hi0 & Hj0 & Hd).
        exists (S d), s, c, p, i0, j0. split; [apply Hsel; auto|].
        repeat split; try assumption; lia.
      * destruct (L2 i j Hq) as (d & s & c & p & i0 & j0 & Hl & Hp & Hc & Hi0 & Hj0 & Hd).
        exists (S d), s, c, p, i0, j0. split; [apply Hsel; auto|].
        repeat split; try assumption; lia.
      * destruct (L3 i j Hq) as (d & s & c & p & i0 & j0 & Hl & Hp & Hc & Hi0 & Hj0 & Hd).
        exists (S d), s, c, p, i0, j0. split; [apply Hsel; auto|].
        repeat split; try assumption; lia.
      * destruct (L4 i j Hq) as (d & s & c & p & i0 & j0 & Hl & Hp & Hc & Hi0 & Hj0 & Hd).
        exists (S d), s, c, p, i0, j0. split; [apply Hsel; auto|].
        repeat split; try assumption; lia.
Qed.

(** X7: the tree [Encode] builds for a region of side 2^k inside the grid
    has depth at most k and at most 2^k * 2^k leaves: never more leaves than
    the region has pixels. *)
Theorem Encode_tree_size (W H : Z) (img : Grid) (x y : Z) (k : nat) :
  rect W H img -> fits W H x y (2 ^ Z.of_nat k) ->
  exists t, Encode img x y (2 ^ Z.of_nat k) = Ok t /\
    (tree_depth t <= k)%nat /\
    Z.of_nat (leaf_count t) <= 2 ^ Z.of_nat k * 2 ^ Z.of_nat k.
Proof.
  intros Hr Hfit. destruct (Encode_blocks W H img k Hr x y Hfit) as (t & He & Hd & Hc & _).
  exists t. auto.
Qed.

Lemma Encode_tree_size_witness :
  rect 2 2 grid_far /\ fits 2 2 0 0 (2 ^ Z.of_nat 1) /\
  exists t, Encode grid_far 0 0 (2 ^ Z.of_nat 1) = Ok t /\
    (tree_depth t <= 1)%nat /\
    Z.of_nat (leaf_count t) <= 2 ^ Z.of_nat 1 * 2 ^ Z.of_nat 1.
Proof.
  split; [rect_tac|]. split; [fits_tac|].
  apply (Encode_tree_size 2 2 grid_far 0 0 1); [rect_tac | fits_tac].
Defined.

(** X8: with a side of 1, 0 or a negative number, [Encode] does not recurse:
    when [(x, y)] is a cell of the grid it returns the leaf holding
    [img[y][x]], also for an empty region. *)
Theorem Encode_degenerate (img : Grid) (x y size : Z) (ref : Color) :
  size <= 1 -> get img x y = Ok ref -> Encode img x y size = Ok (QuadLeaf ref).
Proof.
  intros Hs Href. rewrite Encode_eq.
  rewrite (isUniform_small_true img x y size default_tolerance ref Hs Href).
  simpl. rewrite Href. reflexivity.
Qed.

Lemma Encode_degenerate_witness :
  -3 <= 1 /\ get grid_far 1 0 = Ok far /\ Encode grid_far 1 0 (-3) = Ok (QuadLeaf far).
Proof.
  split; [lia|]. split; [reflexivity|].
  apply (Encode_degenerate grid_far 1 0 (-3) far); [lia | reflexivity].
Defined.

(** Encoding a power-of-two square grid and decoding into a target of the
    same side: every cell of the result holds a pixel of the source found up
    and left of the cell and within tolerance of the cell's own pixel. *)
Lemma codec_cells (k : nat) (img target : Grid) :
  rect (2 ^ Z.of_nat k) (2 ^ Z.of_nat k) img ->
  rect (2 ^ Z.of_nat k) (2 ^ Z.of_nat k) target ->
  exists t out,
    Encode img 0 0 (2 ^ Z.of_nat k) = Ok t /\
    Decode target t 0 0 (2 ^ Z.of_nat k) = Ok out /\
    rect (2 ^ Z.of_nat k) (2 ^ Z.of_nat k) out /\
    forall i j, 0 <= i < 2 ^ Z.of_nat k -> 0 <= j < 2 ^ Z.of_nat k ->
    exists p q i0 j0,
      get img i j = Ok p /\ get out i j = Ok q /\ get img i0 j0 = Ok q /\
      0 <= i0 <= i /\ 0 <= j0 <= j /\
      distanceSquared q p <= default_tolerance * default_tolerance.
Proof.
  intros Hr Ht. pose proof (pow2_pos k) as Hpos.
  assert (Hfit : fits (2 ^ Z.of_nat k) (2 ^ Z.of_nat k) 0 0 (2 ^ Z.of_nat k)).
  { unfold fits. lia. }
  destruct (Encode_blocks _ _ img k Hr 0 0 Hfit) as (t & Henc & _ & _ & Hleaves).
  destruct (Decode_spec _ _ t target 0 0 _ Ht Hfit) as (out & Hdec & Hro & Hcells).
  exists t, out. split; [assumption|]. split; [assumption|]. split; [assumption|].
  intros i j Hi Hj.
  assert (Hin : in_region 0 0 (2 ^ Z.of_nat k) i j) by (unfold in_region; lia).
  destruct (Hleaves i j Hin) as (d & s & c & p & i0 & j0 & Hl & Hp & Hc & Hi0 & Hj0 & Hd).
  exists p, c, i0, j0. split; [assumption|]. split.
  { rewrite Hcells, (leaf_at_painted _ _ _ _ _ _ _ _ _ Hl). reflexivity. }
  split; [assumption|]. split; [assumption|]. split; assumption.
Qed.

(** X9: encoding and decoding invents no color: every pixel of the decoded
    grid is the pixel the source has at some cell up and left of it (the
    corner of its block), and the top-left pixel itself is reproduced
    exactly. *)
Theorem roundtrip_palette (k : nat) (img target : Grid) :
  rect (2 ^ Z.of_nat k) (2 ^ Z.of_nat k) img ->
  rect (2 ^ Z.of_nat k) (2 ^ Z.of_nat k) target ->
  exists t out,
    Encode img 0 0 (2 ^ Z.of_nat k) = Ok t /\
    Decode target t 0 0 (2 ^ Z.of_nat k) = Ok out /\
    (forall i j, 0 <= i < 2 ^ Z.of_nat k -> 0 <= j < 2 ^ Z.of_nat k ->
       exists q i0 j0,
         get out i j = Ok q /\ get img i0 j0 = Ok q /\ 0 <= i0 <= i /\ 0 <= j0 <= j) /\
    get out 0 0 = get img 0 0.
Proof.
  intros Hr Ht. pose proof (pow2_pos k) as Hpos.
  destruct (codec_cells k img target Hr Ht) as (t & out & Henc & Hdec & Hro & Hcells).
  exists t, out. split; [assumption|]. split; [assumption|]. split.
  - intros i j Hi Hj.
    destruct (Hcells i j Hi Hj) as (p & q & i0 & j0 & _ & Hq & Hq0 & Hi0 & Hj0 & _).
    exists q, i0, j0. auto.
  - destruct (Hcells 0 0 ltac:(lia) ltac:(lia))
      as (p & q & i0 & j0 & _ & Hq & Hq0 & Hi0 & Hj0 & _).
    assert (i0 = 0 /\ j0 = 0) as [-> ->] by lia. congruence.
Qed.

Lemma roundtrip_palette_witness :
  rect (2 ^ Z.of_nat 1) (2 ^ Z.of_nat 1) grid_near /\
  rect (2 ^ Z.of_nat 1) (2 ^ Z.of_nat 1) target2 /\
  exists t out,
    Encode grid_near 0 0 (2 ^ Z.of_nat 1) = Ok t /\
    Decode target2 t 0 0 (2 ^ Z.of_nat 1) = Ok out /\
    (forall i j, 0 <= i < 2 ^ Z.of_nat 1 -> 0 <= j < 2 ^ Z.of_nat 1 ->
       exists q i0 j0,
         get out i j = Ok q /\ get grid_near i0 j0 = Ok q /\
         0 <= i0 <= i /\ 0 <= j0 <= j) /\
    get out 0 0 = get grid_near 0 0.
Proof.
  split; [rect_tac|]. split; [rect_tac|].
  apply (roundtrip_palette 1 grid_near target2); rect_tac.
Defined.

(** X10: the grid obtained by decoding the tree of a power-of-two square
    grid does not depend on what the target held before: two targets of the
    right shape give the same result. *)
Theorem roundtrip_ignores_target (k : nat) (img target1 target2 : Grid) :
  rect (2 ^ Z.of_nat k) (2 ^ Z.of_nat k) img ->
  rect (2 ^ Z.of_nat k) (2 ^ Z.of_nat k) target1 ->
  rect (2 ^ Z.of_nat k) (2 ^ Z.of_nat k) target2 ->
  exists t out,
    Encode img 0 0 (2 ^ Z.of_nat k) = Ok t /\
    Decode target1 t 0 0 (2 ^ Z.of_nat k) = Ok out /\
    Decode target2 t 0 0 (2 ^ Z.of_nat k) = Ok out.
Proof.
  intros Hr H1 H2. pose proof (pow2_pos k) as Hpos.
  assert (Hfit : fits (2 ^ Z.of_nat k) (2 ^ Z.of_nat k) 0 0 (2 ^ Z.of_nat k)).
  { unfold fits. lia. }
  destruct (Encode_blocks _ _ img k Hr 0 0 Hfit) as (t & Henc & _ & _ & Hleaves).
  destruct (Decode_spec _ _ t target1 0 0 _ H1 Hfit) as (out1 & Hd1 & Hr1 & Hc1).
  destruct (Decode_spec _ _ t target2 0 0 _ H2 Hfit) as (out2 & Hd2 & Hr2 & Hc2).
  exists t, out1. split; [assumption|]. split; [assumption|].
  rewrite Hd2. f_equal. apply (rect_ext _ _ _ _ Hr2 Hr1). intros i j Hi Hj.
  assert (Hin : in_region 0 0 (2 ^ Z.of_nat k) i j) by (unfold in_region; lia).
  destruct (Hleaves i j Hin) as (d & s & c & p & i0 & j0 & Hl & _).
  rewrite Hc1, Hc2, (leaf_at_painted _ _ _ _ _ _ _ _ _ Hl). reflexivity.
Qed.

Lemma roundtrip_ignores_target_witness :
  rect (2 ^ Z.of_nat 1) (2 ^ Z.of_nat 1) grid_far /\
  rect (2 ^ Z.of_nat 1) (2 ^ Z.of_nat 1) target2 /\
  rect (2 ^ Z.of_nat 1) (2 ^ Z.of_nat 1) grid_near /\
  exists t out,
    Encode grid_far 0 0 (2 ^ Z.of_nat 1) = Ok t /\
    Decode target2 t 0 0 (2 ^ Z.of_nat 1) = Ok out /\
    Decode grid_near t 0 0 (2 ^ Z.of_nat 1) = Ok out.
Proof.
  split; [rect_tac|]. split; [rect_tac|]. split; [rect_tac|].
  apply (roundtrip_ignores_target 1 grid_far target2 grid_near); rect_tac.
Defined.

(** X11: decoding is idempotent: decoding the same tree a second time into
    the result of the first decoding changes nothing, for any tree and any
    region inside the target. *)
Theorem Decode_idempotent (W H : Z) (target : Grid) (node : QuadTree) (x y size : Z) :
  rect W H target -> fits W H x y size ->
  exists out, Decode target node x y size = Ok out /\
              Decode out node x y size = Ok out.
Proof.
  intros Hr Hfit.
  destruct (Decode_spec W H node target x y size Hr Hfit) as (out & Hd & Hro & Hc).
  destruct (Decode_spec W H node out x y size Hro Hfit) as (out' & Hd' & Hro' & Hc').
  exists out. split; [assumption|]. rewrite Hd'. f_equal.
  apply (rect_ext _ _ _ _ Hro' Hro). intros i j Hi Hj.
  rewrite Hc', Hc. destruct (painted node x y size i j); reflexivity.
Qed.

Lemma Decode_idempotent_witness :
  rect 3 3 target3 /\ fits 3 3 0 0 3 /\
  exists out,
    Decode target3 (QuadNode (QuadLeaf black) (QuadLeaf far) (QuadLeaf black) (QuadLeaf black))
           0 0 3 = Ok out /\
    Decode out (QuadNode (QuadLeaf black) (QuadLeaf far) (QuadLeaf black) (QuadLeaf black))
           0 0 3 = Ok out.
Proof.
  split; [rect_tac|]. split; [fits_tac|].
  apply (Decode_idempotent 3 3 target3); [rect_tac | fits_tac].
Defined.

(** * The driver *)

Lemma valid_rect (img : Image) :
  rectangular img -> IsValidImageSize img = true ->
  exists k : nat, rect (2 ^ Z.of_nat k) (2 ^ Z.of_nat k) (data img) /\
                  width img = 2 ^ Z.of_nat k /\ height img = 2 ^ Z.of_nat k.
Proof.
  intros Hrect [Hsq Hpow]%andb_prop. apply Z.eqb_eq in Hsq.
  apply IsPowerOfTwo_inv in Hpow. destruct Hpow as (j & Hj & Hw).
  exists (Z.to_nat j). rewrite Z2Nat.id by assumption. rewrite <- Hw.
  unfold rectangular in Hrect. rewrite <- Hsq in Hrect. auto.
Qed.

Lemma ProcessImg_body_valid (img : Image) :
  IsValidImageSize img = true ->
  ProcessImg_body img =
  let* qt := Encode (data img) 0 0 (height img) in
  let* decoded := Image_new (height img) (height img) in
  let* d := Decode (data decoded) qt 0 0 (height decoded) in
  Ok (mkImage d (w_ decoded) (h_ decoded)).
Proof. intros Hv. unfold ProcessImg_body. rewrite Hv. reflexivity. Qed.

Lemma ProcessImg_body_padded (img p : Image) :
  IsValidImageSize img = false -> PadToSquare img = Ok p ->
  ProcessImg_body img =
  let* qt := Encode (data p) 0 0 (height p) in
  let* decoded := Image_new (height p) (height p) in
  let* d := Decode (data decoded) qt 0 0 (height decoded) in
  Resize (mkImage d (w_ decoded) (h_ decoded)) (width img) (height img).
Proof. intros Hv Hp. unfold ProcessImg_body. rewrite Hv, Hp. reflexivity. Qed.

Lemma height_replicate (n w_rec h_rec : Z) (row : list Color) :
  0 <= n -> height (mkImage (replicate (Z.to_nat n) row) w_rec h_rec) = n.
Proof. intros Hn. unfold height. simpl. rewrite length_replicate. lia. Qed.

(** The encode/decode step of the driver on a grid of side 2^k. *)
Lemma driver_codec (k : nat) (img : Image) :
  rect (2 ^ Z.of_nat k) (2 ^ Z.of_nat k) (data img) ->
  exists d,
    (let* qt := Encode (data img) 0 0 (height img) in
     let* decoded := Image_new (height img) (height img) in
     let* d := Decode (data decoded) qt 0 0 (height decoded) in
     Ok (mkImage d (w_ decoded) (h_ decoded)))
    = Ok (mkImage d (2 ^ Z.of_nat k) (2 ^ Z.of_nat k)) /\
    rect (2 ^ Z.of_nat k) (2 ^ Z.of_nat k) d /\
    forall i j, 0 <= i < 2 ^ Z.of_nat k -> 0 <= j < 2 ^ Z.of_nat k ->
    exists p q i0 j0,
      get (data img) i j = Ok p /\ get d i j = Ok q /\ get (data img) i0 j0 = Ok q /\
      0 <= i0 <= i /\ 0 <= j0 <= j /\
      distanceSquared q p <= default_tolerance * default_tolerance.
Proof.
  intros Hr. pose proof (pow2_pos k) as Hpos.
  destruct (rect_dims _ _ img Hr Hpos) as [_ Hh].
  destruct (codec_cells k (data img)
              (replicate (Z.to_nat (2 ^ Z.of_nat k)) (replicate (Z.to_nat (2 ^ Z.of_nat k)) black))
              Hr) as (t & out & Henc & Hdec & Hro & Hcells).
  { apply rect_replicate; lia. }
  exists out. split; [|split; assumption].
  rewrite Hh, Henc. cbn [bind]. rewrite Image_new_spec by lia. cbn [bind data w_ h_].
  rewrite height_replicate by lia. rewrite Hdec. reflexivity.
Qed.

(** What the driver does to a loaded image: the result has the dimensions
    of the source, and every pixel is a source pixel found up and left of
    it and within tolerance of the source pixel at the same place. *)
Lemma ProcessImg_body_spec (img : Image) :
  rectangular img ->
  exists out, ProcessImg_body img = Ok out /\
    rect (width img) (height img) (data out) /\
    w_ out = width img /\ h_ out = height img /\
    forall i j, 0 <= i < width img -> 0 <= j < height img ->
    exists p q i0 j0,
      get (data img) i j = Ok p /\ get (data out) i j = Ok q /\
      get (data img) i0 j0 = Ok q /\
      0 <= i0 <= i /\ 0 <= j0 <= j /\
      distanceSquared q p <= default_tolerance * default_tolerance.
Proof.
  intros Hrect. pose proof (width_nonneg img) as HW. pose proof (height_nonneg img) as HH.
  destruct (IsValidImageSize img) eqn:Hv.
  - destruct (valid_rect img Hrect Hv) as (k & Hr & Hw & Hh).
    destruct (driver_codec k img Hr) as (d & Hrun & Hrd & Hcells).
    exists (mkImage d (2 ^ Z.of_nat k) (2 ^ Z.of_nat k)).
    rewrite (ProcessImg_body_valid img Hv), Hrun, Hw, Hh. simpl.
    split; [reflexivity|]. split; [assumption|]. split; [reflexivity|].
    split; [reflexivity|]. exact Hcells.
  - destruct (PadToSquare_spec img Hrect)
      as (k & p & Hpad & Hmax & _ & Hrp & _ & _ & Hpc).
    pose proof (pow2_pos k) as Hpos.
    destruct (driver_codec k p Hrp) as (d & Hrun & Hrd & Hcells).
    destruct (Resize_spec (2 ^ Z.of_nat k) (2 ^ Z.of_nat k)
                (mkImage d (2 ^ Z.of_nat k) (2 ^ Z.of_nat k)) (width img) (height img))
      as (out & Hres & Hro & Hwo & Hho & Hoc); simpl; try assumption; try lia.
    exists out. split.
    { rewrite (ProcessImg_body_padded img p Hv Hpad).
      cbv zeta in Hrun. cbv zeta.
      destruct (Encode (data p) 0 0 (height p)) as [qt|e]; cbn [bind] in *; [|discriminate].
      destruct (Image_new (height p) (height p)) as [dec|e]; cbn [bind] in *; [|discriminate].
      destruct (Decode (data dec) qt 0 0 (height dec)) as [d'|e]; cbn [bind] in *; [|discriminate].
      injection Hrun as Hd1 Hd2 Hd3. rewrite Hd1, Hd2, Hd3. exact Hres. }
    split; [assumption|]. split; [assumption|]. split; [assumption|].
    intros i j Hi Hj.
    destruct (Hcells i j ltac:(lia) ltac:(lia))
      as (pp & q & i0 & j0 & Hpp & Hq & Hq0 & Hi0 & Hj0 & Hd).
    rewrite Hpc in Hpp by lia. rewrite decide_True in Hpp by lia.
    rewrite Hpc in Hq0 by lia. rewrite decide_True in Hq0 by lia.
    exists pp, q, i0, j0. split; [assumption|]. split.
    { rewrite Hoc by lia. simpl. rewrite decide_True by lia. assumption. }
    split; [assumption|]. split; [assumption|]. split; assumption.
Qed.

(** X12: on any loaded image (8-bit pixels), padded or not, the driver's
    pad / encode / decode / crop sequence succeeds and returns an image with
    the source's width and height in which every pixel is at squared
    distance at most tolerance * tolerance from the source pixel at the same
    place. *)
Theorem ProcessImg_body_within_tolerance (img : Image) :
  rectangular img -> pixels_ok (data img) ->
  exists out, ProcessImg_body img = Ok out /\
    rect (width img) (height img) (data out) /\
    w_ out = width img /\ h_ out = height img /\
    forall i j, 0 <= i < width img -> 0 <= j < height img ->
    exists p q,
      get (data img) i j = Ok p /\ get (data out) i j = Ok q /\
      distanceSquared p q <= default_tolerance * default_tolerance.
Proof.
  intros Hrect _.
  destruct (ProcessImg_body_spec img Hrect) as (out & Hrun & Hro & Hw & Hh & Hcells).
  exists out. split; [assumption|]. split; [assumption|]. split; [assumption|].
  split; [assumption|]. intros i j Hi Hj.
  destruct (Hcells i j Hi Hj) as (p & q & _ & _ & Hp & Hq & _ & _ & _ & Hd).
  exists p, q. rewrite distanceSquared_sym. auto.
Qed.

Lemma tall_pixels_ok : pixels_ok (data tall).
Proof.
  assert (R : rect 3 5 (data tall)) by rect_tac.
  intros i j c Hc. destruct (get_in_rect 3 5 _ _ _ _ R Hc) as [Hi Hj].
  assert (Ei : i = 0 \/ i = 1 \/ i = 2) by lia.
  assert (Ej : j = 0 \/ j = 1 \/ j = 2 \/ j = 3 \/ j = 4) by lia.
  destruct Ei as [-> | [-> | ->]], Ej as [-> | [-> | [-> | [-> | ->]]]];
    vm_compute in Hc; inversion Hc; unfold channel_ok; simpl; lia.
Qed.

Lemma ProcessImg_body_within_tolerance_witness :
  rectangular tall /\ pixels_ok (data tall) /\
  exists out, ProcessImg_body tall = Ok out /\
    rect (width tall) (height tall) (data out) /\
    w_ out = width tall /\ h_ out = height tall /\
    forall i j, 0 <= i < width tall -> 0 <= j < height tall ->
    exists p q,
      get (data tall) i j = Ok p /\ get (data out) i j = Ok q /\
      distanceSquared p q <= default_tolerance * default_tolerance.
Proof.
  assert (R : rectangular tall) by (unfold rectangular; rect_tac).
  split; [exact R|]. split; [exact tall_pixels_ok|].
  apply (ProcessImg_body_within_tolerance tall R tall_pixels_ok).
Defined.

(** X13: the driver is lossless on an image of 8-bit pixels in which any
    two pixels at squared distance at most 100 are equal (for instance an image of a
    single color), whatever its width and height: the black padding never
    leaks into the result. *)
Theorem ProcessImg_body_lossless (img : Image) :
  rectangular img -> pixels_ok (data img) -> separated (data img) ->
  exists out, ProcessImg_body img = Ok out /\ data out = data img.
Proof.
  intros Hrect _ Hsep.
  destruct (ProcessImg_body_spec img Hrect) as (out & Hrun & Hro & Hw & Hh & Hcells).
  exists out. split; [assumption|].
  apply (rect_ext _ _ _ _ Hro Hrect). intros i j Hi Hj.
  destruct (Hcells i j Hi Hj) as (p & q & i0 & j0 & Hp & Hq & Hq0 & _ & _ & Hd).
  rewrite Hp, Hq. f_equal. apply (Hsep i0 j0 i j q p Hq0 Hp Hd).
Qed.

Lemma wide_channels : forall i j c, get (data wide) i j = Ok c -> channel_ok c.
Proof.
  assert (R : rect 3 2 (data wide)) by rect_tac.
  intros i j c Hc. destruct (get_in_rect 3 2 _ _ _ _ R Hc) as [Hi Hj].
  assert (Ei : i = 0 \/ i = 1 \/ i = 2) by lia. assert (Ej : j = 0 \/ j = 1) by lia.
  destruct Ei as [-> | [-> | ->]], Ej as [-> | ->];
    vm_compute in Hc; inversion Hc; unfold channel_ok; simpl; lia.
Qed.

Lemma wide_separated : separated (data wide).
Proof.
  assert (R : rect 3 2 (data wide)) by rect_tac.
  intros i j i' j' p q Hp Hq Hd.
  destruct (get_in_rect 3 2 _ _ _ _ R Hp) as [Hi Hj].
  destruct (get_in_rect 3 2 _ _ _ _ R Hq) as [Hi' Hj'].
  assert (Ei : i = 0 \/ i = 1 \/ i = 2) by lia. assert (Ej : j = 0 \/ j = 1) by lia.
  assert (Ei' : i' = 0 \/ i' = 1 \/ i' = 2) by lia. assert (Ej' : j' = 0 \/ j' = 1) by lia.
  destruct Ei as [-> | [-> | ->]], Ej as [-> | ->],
           Ei' as [-> | [-> | ->]], Ej' as [-> | ->];
    vm_compute in Hp, Hq; inversion Hp; inversion Hq; subst p q;
    try reflexivity; exfalso; apply Hd; reflexivity.
Qed.

Lemma ProcessImg_body_lossless_witness :
  rectangular wide /\ pixels_ok (data wide) /\ separated (data wide) /\
  exists out, ProcessImg_body wide = Ok out /\ data out = data wide.
Proof.
  assert (R : rectangular wide) by (unfold rectangular; rect_tac).
  split; [exact R|]. split; [exact wide_channels|]. split; [exact wide_separated|].
  apply (ProcessImg_body_lossless wide R wide_channels wide_separated).
Defined.

(** X14: the driver keeps the channels in range: when every pixel of the
    loaded image has 8-bit channels, so has every pixel of the result, so
    the conversion to [unsigned char] in [WriteImage] loses nothing. *)
Theorem ProcessImg_body_channels (img : Image) :
  rectangular img ->
  (forall i j c, get (data img) i j = Ok c -> channel_ok c) ->
  exists out, ProcessImg_body img = Ok out /\
    forall i j c, get (data out) i j = Ok c ->
      channel_ok c /\
      to_uchar (r c) = r c /\ to_uchar (g c) = g c /\ to_uchar (b c) = b c.
Proof.
  intros Hrect Hch.
  destruct (ProcessImg_body_spec img Hrect) as (out & Hrun & Hro & Hw & Hh & Hcells).
  exists out. split; [assumption|]. intros i j c Hc.
  destruct (get_in_rect _ _ _ _ _ _ Hro Hc) as [Hi Hj].
  destruct (Hcells i j Hi Hj) as (p & q & i0 & j0 & _ & Hq & Hq0 & _).
  rewrite Hc in Hq. inversion Hq. subst q.
  pose proof (Hch i0 j0 c Hq0) as Hok. split; [assumption|].
  destruct Hok as (Hr & Hg & Hb). unfold to_uchar.
  rewrite !Z.mod_small by lia. auto.
Qed.

Lemma ProcessImg_body_channels_witness :
  rectangular wide /\
  (forall i j c, get (data wide) i j = Ok c -> channel_ok c) /\
  exists out, ProcessImg_body wide = Ok out /\
    forall i j c, get (data out) i j = Ok c ->
      channel_ok c /\
      to_uchar (r c) = r c /\ to_uchar (g c) = g c /\ to_uchar (b c) = b c.
Proof.
  assert (R : rectangular wide) by (unfold rectangular; rect_tac).
  split; [exact R|]. split; [exact wide_channels|].
  apply (ProcessImg_body_channels wide R wide_channels).
Defined.

(** * The pixel buffers *)

Lemma pixel_index_bound (W H x y : Z) :
  0 <= x < W -> 0 <= y < H -> 0 <= y * W + x < W * H.
Proof. intros Hx Hy. nia. Qed.

Lemma pixel_index_lt (W x y i j : Z) :
  0 <= x < W -> 0 <= i -> 0 <= y -> y < j \/ (y = j /\ x < i) ->
  y * W + x < j * W + i.
Proof. intros Hx Hi Hy [Hlt | [-> Hlt]]; nia. Qed.

Lemma rect_rectangular (Wd Hd : Z) (img : Image) :
  rect Wd Hd (data img) -> rectangular img.
Proof.
  intros Hr. destruct (Z.le_gt_cases 1 Hd) as [Hpos|Hzero].
  - destruct (rect_dims Wd Hd img Hr Hpos) as [Hw Hh].
    unfold rectangular. rewrite Hw, Hh. assumption.
  - destruct Hr as [Hlen _]. unfold rectangular, width, height.
    destruct (data img) as [|row rows]; simpl in Hlen; [|lia].
    split; [reflexivity | constructor].
Qed.

Lemma ReadImage_pixels_spec (buf : list Z) (W H : Z) :
  0 <= W -> 0 <= H -> W * H * 3 <= Z.of_nat (length buf) ->
  exists img, ReadImage_pixels buf W H = Ok img /\
    rect W H (data img) /\ w_ img = W /\ h_ img = H /\
    forall x y, 0 <= x < W -> 0 <= y < H ->
      exists cr cg cb,
        vec_at buf ((y * W + x) * 3) = Ok cr /\
        vec_at buf ((y * W + x) * 3 + 1) = Ok cg /\
        vec_at buf ((y * W + x) * 3 + 2) = Ok cb /\
        get (data img) x y = Ok (mkColor cr cg cb).
Proof.
  intros HW HH Hlen. unfold ReadImage_pixels. rewrite Image_new_spec by assumption.
  cbn [bind].
  destruct (store_loops W H W H
    (fun x y img =>
       let i := (y * W + x) * 3 in
       let* cr := vec_at buf i in
       let* cg := vec_at buf (i + 1) in
       let* cb := vec_at buf (i + 2) in
       set_at img x y (mkColor cr cg cb))
    (fun x y => mkColor (byte_at buf ((y * W + x) * 3))
                        (byte_at buf ((y * W + x) * 3 + 1))
                        (byte_at buf ((y * W + x) * 3 + 2)))
    (mkImage (replicate (Z.to_nat H) (replicate (Z.to_nat W) black)) W H))
    as (img & Hrun & Hri & Hwi & Hhi & Hcells).
  - apply rect_replicate; assumption.
  - lia.
  - lia.
  - intros x y t Hx Hy. cbv zeta. unfold byte_at.
    pose proof (pixel_index_bound W H x y Hx Hy) as Hidx.
    destruct (vec_at_in_range buf ((y * W + x) * 3)) as [cr Hcr]; [lia|].
    destruct (vec_at_in_range buf ((y * W + x) * 3 + 1)) as [cg Hcg]; [lia|].
    destruct (vec_at_in_range buf ((y * W + x) * 3 + 2)) as [cb Hcb]; [lia|].
    rewrite Hcr, Hcg, Hcb. reflexivity.
  - exists img. split; [exact Hrun|]. split; [assumption|].
    split; [assumption|]. split; [assumption|].
    intros x y Hx Hy. pose proof (pixel_index_bound W H x y Hx Hy) as Hidx.
    destruct (vec_at_in_range buf ((y * W + x) * 3)) as [cr Hcr]; [lia|].
    destruct (vec_at_in_range buf ((y * W + x) * 3 + 1)) as [cg Hcg]; [lia|].
    destruct (vec_at_in_range buf ((y * W + x) * 3 + 2)) as [cb Hcb]; [lia|].
    exists cr, cg, cb. split; [assumption|]. split; [assumption|]. split; [assumption|].
    rewrite Hcells. rewrite decide_True by lia. unfold byte_at.
    rewrite Hcr, Hcg, Hcb. reflexivity.
Qed.

Lemma WriteImage_buffer_spec (img : Image) :
  rectangular img ->
  exists buf, WriteImage_buffer img = Ok buf /\
    Z.of_nat (length buf) = width img * height img * 3 /\
    forall x y c, 0 <= x < width img -> 0 <= y < height img ->
      get (data img) x y = Ok c ->
      vec_at buf ((y * width img + x) * 3) = Ok (to_uchar (r c)) /\
      vec_at buf ((y * width img + x) * 3 + 1) = Ok (to_uchar (g c)) /\
      vec_at buf ((y * width img + x) * 3 + 2) = Ok (to_uchar (b c)).
Proof.
  intros Hrect. pose proof (width_nonneg img) as HW. pose proof (height_nonneg img) as HH.
  unfold WriteImage_buffer. cbv zeta.
  set (W := width img) in *. set (H := height img) in *.
  assert (Hn : 0 <= W * H * 3) by nia.
  pose (Filled := fun (done : Z -> Z -> Prop) (buf : list Z) =>
    Z.of_nat (length buf) = W * H * 3 /\
    forall x y c, 0 <= x < W -> 0 <= y < H -> done x y ->
      get (data img) x y = Ok c ->
      vec_at buf ((y * W + x) * 3) = Ok (to_uchar (r c)) /\
      vec_at buf ((y * W + x) * 3 + 1) = Ok (to_uchar (g c)) /\
      vec_at buf ((y * W + x) * 3 + 2) = Ok (to_uchar (b c))).
  destruct (for_range_inv (fun j buf => Filled (fun x y => y < j) buf)
    (fun y buf => for_range 0 W (fun x buf =>
       let* c1 := at_ img x y in
       let* data1 := vec_set buf ((y * W + x) * 3) (to_uchar (r c1)) in
       let* c2 := at_ img x y in
       let* data2 := vec_set data1 ((y * W + x) * 3 + 1) (to_uchar (g c2)) in
       let* c3 := at_ img x y in
       vec_set data2 ((y * W + x) * 3 + 2) (to_uchar (b c3))) buf)
    0 H (replicate (Z.to_nat (W * H * 3)) 0)) as (buf & Hrun & Hlen & Hfill).
  - lia.
  - split; [rewrite length_replicate; lia|]. intros x y c Hx Hy Hdone. lia.
  - intros j buf Hj [Hlen Hfill].
    destruct (for_range_inv
      (fun i buf' => Filled (fun x y => y < j \/ (y = j /\ x < i)) buf')
      (fun x buf' =>
         let* c1 := at_ img x j in
         let* data1 := vec_set buf' ((j * W + x) * 3) (to_uchar (r c1)) in
         let* c2 := at_ img x j in
         let* data2 := vec_set data1 ((j * W + x) * 3 + 1) (to_uchar (g c2)) in
         let* c3 := at_ img x j in
         vec_set data2 ((j * W + x) * 3 + 2) (to_uchar (b c3)))
      0 W buf) as (buf' & Hrun' & Hlen' & Hfill').
    + lia.
    + split; [assumption|]. intros x y c Hx Hy Hdone. apply Hfill; try assumption. lia.
    + intros i cur Hi [Hlc Hfc].
      pose proof (pixel_index_bound W H i j Hi Hj) as Hidx.
      destruct (rect_get W H (data img) i j Hrect Hi Hj) as [c Hc].
      unfold at_. rewrite Hc. cbn [bind].
      rewrite vec_set_in_range by lia. cbn [bind].
      rewrite vec_set_in_range by (rewrite length_insert; lia). cbn [bind].
      eexists. split; [apply vec_set_in_range; rewrite !length_insert; lia|].
      split; [rewrite !length_insert; assumption|].
      intros x y c' Hx Hy Hdone Hc'.
      rewrite !vec_at_set by (rewrite ?length_insert; lia).
      destruct (decide (x = i /\ y = j)) as [[-> ->]|Hne].
      * rewrite Hc in Hc'. inversion Hc'. subst c'.
        repeat case_decide; try lia. auto.
      * assert (Hold : y < j \/ (y = j /\ x < i)) by lia.
        pose proof (pixel_index_lt W x y i j Hx ltac:(lia) ltac:(lia) Hold) as Hlt.
        repeat case_decide; try lia. apply Hfc; assumption.
    + exists buf'. split; [exact Hrun'|]. split; [assumption|].
      intros x y c Hx Hy Hdone. apply Hfill'; try assumption. lia.
  - exists buf. split; [exact Hrun|]. split; [assumption|].
    intros x y c Hx Hy Hc. apply Hfill; try assumption. lia.
Qed.

Lemma vec_ext (a c : list Z) :
  length a = length c ->
  (forall n, 0 <= n < Z.of_nat (length a) -> vec_at a n = vec_at c n) ->
  a = c.
Proof.
  intros Hlen Hall. apply list_eq. intros n.
  destruct (decide (n < length a)%nat) as [Hn|Hn].
  - destruct (lookup_lt_is_Some_2 a n Hn) as [va Ha].
    destruct (lookup_lt_is_Some_2 c n ltac:(lia)) as [vc Hc].
    specialize (Hall (Z.of_nat n) ltac:(lia)).
    assert (Hva : vec_at a (Z.of_nat n) = Ok va).
    { apply vec_at_Ok. rewrite Nat2Z.id. split; [lia | assumption]. }
    assert (Hvc : vec_at c (Z.of_nat n) = Ok vc).
    { apply vec_at_Ok. rewrite Nat2Z.id. split; [lia | assumption]. }
    rewrite Hva, Hvc in Hall. rewrite Ha, Hc. congruence.
  - rewrite !lookup_ge_None_2 by lia. reflexivity.
Qed.

(** Every index of a [W * H * 3] buffer is a channel of a pixel. *)
Lemma flat_index (W H n : Z) :
  0 <= W -> 0 <= H -> 0 <= n < W * H * 3 ->
  exists x y ch, 0 <= x < W /\ 0 <= y < H /\ 0 <= ch < 3 /\ n = (y * W + x) * 3 + ch.
Proof.
  intros HW HH Hn. assert (HWp : 0 < W) by nia.
  pose proof (Z.div_mod n 3 ltac:(lia)) as Hq.
  pose proof (Z.mod_pos_bound n 3 ltac:(lia)) as Hch.
  pose proof (Z.div_mod (n / 3) W ltac:(lia)) as Hy.
  pose proof (Z.mod_pos_bound (n / 3) W HWp) as Hx.
  exists ((n / 3) mod W), (n / 3 / W), (n mod 3).
  assert (Hq0 : 0 <= n / 3) by (apply Z.div_pos; lia).
  assert (Hy0 : 0 <= n / 3 / W) by (apply Z.div_pos; lia).
  split; [assumption|]. split; [|split; [assumption | nia]].
  split; [assumption|]. nia.
Qed.

Lemma bytes_at (buf : list Z) (n v : Z) :
  bytes buf -> vec_at buf n = Ok v -> 0 <= v < 256.
Proof.
  intros Hb [_ Hl]%vec_at_Ok. unfold bytes in Hb. rewrite Forall_forall in Hb.
  apply Hb. apply list_elem_of_lookup. eauto.
Qed.

Lemma to_uchar_byte (v : Z) : 0 <= v < 256 -> to_uchar v = v.
Proof. intros Hv. unfold to_uchar. apply Z.mod_small. assumption. Qed.

Lemma to_uchar_range (v : Z) : 0 <= to_uchar v < 256.
Proof. unfold to_uchar. apply Z.mod_pos_bound. lia. Qed.

(** The three buffer elements of a pixel, by channel number. *)
Lemma channel_cases (ch : Z) (P : Z -> Prop) (base : Z) :
  0 <= ch < 3 -> P base -> P (base + 1) -> P (base + 2) -> P (base + ch).
Proof.
  intros Hch P0 P1 P2. assert (E : ch = 0 \/ ch = 1 \/ ch = 2) by lia.
  destruct E as [-> | [-> | ->]]; [rewrite Z.add_0_r|..]; assumption.
Qed.

(** X15: loading then saving is the identity on pixel buffers: the buffer
    [WriteImage] hands to the PNG writer for the image that [ReadImage]
    built from a [W * H * 3] buffer of [unsigned char] is that buffer. *)
Theorem buffer_roundtrip (buf : list Z) (W H : Z) :
  0 <= W -> 0 <= H -> Z.of_nat (length buf) = W * H * 3 -> bytes buf ->
  exists img, ReadImage_pixels buf W H = Ok img /\ WriteImage_buffer img = Ok buf.
Proof.
  intros HW HH Hlen Hbytes.
  destruct (ReadImage_pixels_spec buf W H HW HH ltac:(lia))
    as (img & Hread & Hri & _ & _ & Hpix).
  pose proof (rect_rectangular W H img Hri) as Hrect.
  destruct (WriteImage_buffer_spec img Hrect) as (out & Hwrite & Hlo & Hout).
  exists img. split; [assumption|]. rewrite Hwrite. f_equal.
  destruct (Z.le_gt_cases 1 H) as [Hpos|Hzero].
  - destruct (rect_dims W H img Hri Hpos) as [Hw Hh]. rewrite Hw, Hh in Hlo, Hout.
    apply vec_ext; [lia|]. intros n Hn.
    destruct (flat_index W H n HW HH ltac:(lia)) as (x & y & ch & Hx & Hy & Hch & ->).
    destruct (Hpix x y Hx Hy) as (cr & cg & cb & Hcr & Hcg & Hcb & Hget).
    destruct (Hout x y _ Hx Hy Hget) as (Or & Og & Ob). simpl in Or, Og, Ob.
    rewrite (to_uchar_byte cr) in Or by (eapply bytes_at; eassumption).
    rewrite (to_uchar_byte cg) in Og by (eapply bytes_at; eassumption).
    rewrite (to_uchar_byte cb) in Ob by (eapply bytes_at; eassumption).
    apply (channel_cases ch (fun m => vec_at out m = vec_at buf m)); [assumption|..];
      congruence.
  - destruct Hri as [Hh _]. unfold height in Hlo. rewrite Hh in Hlo.
    assert (H = 0) as -> by lia.
    destruct out; [|simpl in Hlo; lia]. destruct buf; [reflexivity | simpl in Hlen; lia].
Qed.

Lemma buffer_roundtrip_witness :
  0 <= 2 /\ 0 <= 1 /\ Z.of_nat (length [7; 8; 9; 250; 0; 3]) = 2 * 1 * 3 /\
  bytes [7; 8; 9; 250; 0; 3] /\
  exists img, ReadImage_pixels [7; 8; 9; 250; 0; 3] 2 1 = Ok img /\
              WriteImage_buffer img = Ok [7; 8; 9; 250; 0; 3].
Proof.
  assert (B : bytes [7; 8; 9; 250; 0; 3]) by (repeat constructor; lia).
  split; [lia|]. split; [lia|]. split; [reflexivity|]. split; [exact B|].
  apply (buffer_roundtrip [7; 8; 9; 250; 0; 3] 2 1); [lia | lia | reflexivity | exact B].
Defined.

(** X16: saving then loading is the identity on images with 8-bit channels:
    [ReadImage] applied to the buffer, width and height that [WriteImage]
    passes on gives back the image (rows of equal length, recorded
    dimensions equal to the actual ones). *)
Theorem image_roundtrip (img : Image) :
  rectangular img -> w_ img = width img -> h_ img = height img ->
  (forall i j c, get (data img) i j = Ok c -> channel_ok c) ->
  exists buf, WriteImage_buffer img = Ok buf /\
              ReadImage_pixels buf (width img) (height img) = Ok img.
Proof.
  intros Hrect Hw Hh Hch.
  pose proof (width_nonneg img) as HW. pose proof (height_nonneg img) as HH.
  destruct (WriteImage_buffer_spec img Hrect) as (buf & Hwrite & Hlen & Hout).
  destruct (ReadImage_pixels_spec buf (width img) (height img) HW HH ltac:(lia))
    as (img' & Hread & Hri & Hwi & Hhi & Hpix).
  exists buf. split; [assumption|]. rewrite Hread. f_equal.
  apply Image_eq; [|congruence|congruence].
  apply (rect_ext _ _ _ _ Hri Hrect). intros i j Hi Hj.
  destruct (Hpix i j Hi Hj) as (cr & cg & cb & Hcr & Hcg & Hcb & Hget).
  destruct (rect_get _ _ (data img) i j Hrect Hi Hj) as [c Hc].
  destruct (Hout i j c Hi Hj Hc) as (Or & Og & Ob).
  destruct (Hch i j c Hc) as (Rr & Rg & Rb).
  rewrite to_uchar_byte in Or, Og, Ob by lia.
  rewrite Hget, Hc. f_equal. destruct c as [c1 c2 c3]. simpl in *. congruence.
Qed.

Lemma image_roundtrip_witness :
  rectangular wide /\ w_ wide = width wide /\ h_ wide = height wide /\
  (forall i j c, get (data wide) i j = Ok c -> channel_ok c) /\
  exists buf, WriteImage_buffer wide = Ok buf /\
              ReadImage_pixels buf (width wide) (height wide) = Ok wide.
Proof.
  assert (R : rectangular wide) by (unfold rectangular; rect_tac).
  split; [exact R|]. split; [reflexivity|]. split; [reflexivity|].
  split; [exact wide_channels|].
  apply (image_roundtrip wide R); [reflexivity | reflexivity | exact wide_channels].
Defined.

Lemma distanceSquared_channels (p q : Color) :
  distanceSquared p q <= default_tolerance * default_tolerance ->
  Z.abs (r p - r q) <= 10 /\ Z.abs (g p - g q) <= 10 /\ Z.abs (b p - b q) <= 10.
Proof.
  unfold distanceSquared, default_tolerance. cbv zeta. intros Hd.
  pose proof (Z.square_nonneg (r p - r q)). pose proof (Z.square_nonneg (g p - g q)).
  pose proof (Z.square_nonneg (b p - b q)).
  assert (Hsq : forall d, d * d <= 100 -> Z.abs d <= 10).
  { intros d Hdd. destruct (Z.le_gt_cases (Z.abs d) 10) as [Hle|Hgt]; [assumption|].
    exfalso. assert (121 <= Z.abs d * Z.abs d) by nia.
    rewrite <- Z.abs_mul in *. rewrite Z.abs_eq in * by apply Z.square_nonneg. lia. }
  repeat split; apply Hsq; lia.
Qed.

(** X17: the buffer [WriteImage] hands to the PNG writer always has exactly
    width * height * 3 elements, each an [unsigned char] value, and the
    three elements of the pixel at (x, y), at index (y * width + x) * 3 and
    the next two, are its red, green and blue channels modulo 256, whatever
    the channels of the image are. *)
Theorem WriteImage_buffer_shape (img : Image) :
  rectangular img ->
  exists buf, WriteImage_buffer img = Ok buf /\
    Z.of_nat (length buf) = width img * height img * 3 /\ bytes buf /\
    forall x y c, 0 <= x < width img -> 0 <= y < height img ->
      get (data img) x y = Ok c ->
      vec_at buf ((y * width img + x) * 3) = Ok (r c mod 256) /\
      vec_at buf ((y * width img + x) * 3 + 1) = Ok (g c mod 256) /\
      vec_at buf ((y * width img + x) * 3 + 2) = Ok (b c mod 256).
Proof.
  intros Hrect. pose proof (width_nonneg img) as HW. pose proof (height_nonneg img) as HH.
  destruct (WriteImage_buffer_spec img Hrect) as (buf & Hwrite & Hlen & Hout).
  exists buf. split; [assumption|]. split; [assumption|]. split; [|exact Hout].
  unfold bytes. apply Forall_lookup. intros n v Hv.
  pose proof (lookup_lt_Some _ _ _ Hv) as Hn.
  destruct (flat_index (width img) (height img) (Z.of_nat n) HW HH ltac:(lia))
    as (x & y & ch & Hx & Hy & Hch & Hidx).
  destruct (rect_get _ _ (data img) x y Hrect Hx Hy) as [c Hc].
  destruct (Hout x y c Hx Hy Hc) as (Or & Og & Ob).
  assert (Hat : vec_at buf (Z.of_nat n) = Ok v).
  { apply vec_at_Ok. rewrite Nat2Z.id. split; [lia | assumption]. }
  rewrite Hidx in Hat. revert Hat.
  apply (channel_cases ch (fun m => vec_at buf m = Ok v -> 0 <= v < 256)); [assumption|..];
    intros Hat; rewrite Hat in *.
  - inversion Or. apply to_uchar_range.
  - inversion Og. apply to_uchar_range.
  - inversion Ob. apply to_uchar_range.
Qed.

Lemma WriteImage_buffer_shape_witness :
  rectangular (mkImage [[mkColor 300 (-1) 256]] 1 1) /\
  exists buf, WriteImage_buffer (mkImage [[mkColor 300 (-1) 256]] 1 1) = Ok buf /\
    Z.of_nat (length buf) =
      width (mkImage [[mkColor 300 (-1) 256]] 1 1) *
      height (mkImage [[mkColor 300 (-1) 256]] 1 1) * 3 /\
    bytes buf /\
    forall x y c, 0 <= x < width (mkImage [[mkColor 300 (-1) 256]] 1 1) ->
      0 <= y < height (mkImage [[mkColor 300 (-1) 256]] 1 1) ->
      get (data (mkImage [[mkColor 300 (-1) 256]] 1 1)) x y = Ok c ->
      vec_at buf ((y * width (mkImage [[mkColor 300 (-1) 256]] 1 1) + x) * 3)
        = Ok (r c mod 256) /\
      vec_at buf ((y * width (mkImage [[mkColor 300 (-1) 256]] 1 1) + x) * 3 + 1)
        = Ok (g c mod 256) /\
      vec_at buf ((y * width (mkImage [[mkColor 300 (-1) 256]] 1 1) + x) * 3 + 2)
        = Ok (b c mod 256).
Proof.
  assert (R : rectangular (mkImage [[mkColor 300 (-1) 256]] 1 1))
    by (unfold rectangular; rect_tac).
  split; [exact R|]. apply (WriteImage_buffer_shape _ R).
Defined.

(** X18: end to end, from the buffer the loader returned to the buffer the
    writer receives: [ProcessImg] succeeds on every W x H image, the output
    buffer has the same W * H * 3 length, and each of its elements is an
    [unsigned char] value at most 10 away from the input element at the same
    index. *)
Theorem ProcessImg_pixels_bounded (buf : list Z) (W H : Z) :
  0 <= W -> 0 <= H -> Z.of_nat (length buf) = W * H * 3 -> bytes buf ->
  exists out, ProcessImg_pixels buf W H = Ok out /\
    Z.of_nat (length out) = W * H * 3 /\
    forall n, 0 <= n < W * H * 3 ->
      exists a c, vec_at buf n = Ok a /\ vec_at out n = Ok c /\
                  Z.abs (a - c) <= 10 /\ 0 <= c < 256.
Proof.
  intros HW HH Hlen Hbytes.
  destruct (ReadImage_pixels_spec buf W H HW HH ltac:(lia))
    as (img & Hread & Hri & _ & _ & Hpix).
  pose proof (rect_rectangular W H img Hri) as Hrect.
  destruct (ProcessImg_body_spec img Hrect) as (res & Hbody & Hrr & _ & _ & Hcells).
  pose proof (rect_rectangular _ _ res Hrr) as Hrres.
  destruct (WriteImage_buffer_spec res Hrres) as (out & Hwrite & Hlo & Hout).
  exists out. split.
  { unfold ProcessImg_pixels. rewrite Hread. cbn [bind]. rewrite Hbody. exact Hwrite. }
  destruct (Z.le_gt_cases 1 H) as [Hpos|Hzero].
  - destruct (rect_dims W H img Hri Hpos) as [Hw Hh]. rewrite Hw, Hh in Hrr, Hcells.
    destruct (rect_dims W H res Hrr Hpos) as [Hw' Hh']. rewrite Hw', Hh' in Hlo, Hout.
    split; [assumption|]. intros n Hn.
    destruct (flat_index W H n HW HH Hn) as (x & y & ch & Hx & Hy & Hch & ->).
    destruct (Hpix x y Hx Hy) as (cr & cg & cb & Hcr & Hcg & Hcb & Hget).
    destruct (Hcells x y Hx Hy) as (p & q & i0 & j0 & Hp & Hq & Hq0 & Hi0 & Hj0 & Hd).
    rewrite Hget in Hp. inversion Hp. subst p.
    destruct (Hpix i0 j0 ltac:(lia) ltac:(lia)) as (qr & qg & qb & Hqr & Hqg & Hqb & Hgq).
    rewrite Hq0 in Hgq. inversion Hgq. subst q.
    destruct (Hout x y _ Hx Hy Hq) as (Or & Og & Ob). simpl in Or, Og, Ob.
    pose proof (bytes_at _ _ _ Hbytes Hqr) as Bqr.
    pose proof (bytes_at _ _ _ Hbytes Hqg) as Bqg.
    pose proof (bytes_at _ _ _ Hbytes Hqb) as Bqb.
    rewrite to_uchar_byte in Or, Og, Ob by assumption.
    rewrite distanceSquared_sym in Hd.
    destruct (distanceSquared_channels _ _ Hd) as (Dr & Dg & Db). simpl in Dr, Dg, Db.
    apply (channel_cases ch
             (fun m => exists a c, vec_at buf m = Ok a /\ vec_at out m = Ok c /\
                                   Z.abs (a - c) <= 10 /\ 0 <= c < 256));
      [assumption | exists cr, qr | exists cg, qg | exists cb, qb]; auto.
  - assert (H = 0) as -> by lia.
    assert (Hh : height res = 0).
    { destruct Hrr as [Hl _]. destruct Hri as [Hl' _]. unfold height in *. lia. }
    rewrite Hh in Hlo. split; [lia|]. intros n Hn. lia.
Qed.

Lemma ProcessImg_pixels_bounded_witness :
  0 <= 3 /\ 0 <= 1 /\ Z.of_nat (length [7; 8; 9; 250; 0; 3; 9; 9; 9]) = 3 * 1 * 3 /\
  bytes [7; 8; 9; 250; 0; 3; 9; 9; 9] /\
  exists out, ProcessImg_pixels [7; 8; 9; 250; 0; 3; 9; 9; 9] 3 1 = Ok out /\
    Z.of_nat (length out) = 3 * 1 * 3 /\
    forall n, 0 <= n < 3 * 1 * 3 ->
      exists a c, vec_at [7; 8; 9; 250; 0; 3; 9; 9; 9] n = Ok a /\ vec_at out n = Ok c /\
                  Z.abs (a - c) <= 10 /\ 0 <= c < 256.
Proof.
  assert (B : bytes [7; 8; 9; 250; 0; 3; 9; 9; 9]) by (repeat constructor; lia).
  split; [lia|]. split; [lia|]. split; [reflexivity|]. split; [exact B|].
  apply (ProcessImg_pixels_bounded [7; 8; 9; 250; 0; 3; 9; 9; 9] 3 1);
    [lia | lia | reflexivity | exact B].
Defined.

(** * Further edge cases and locality *)

(** X19: decoding a leaf paints its whole region, and only it, with the
    leaf's color. *)
Theorem Decode_leaf_block (W H : Z) (target : Grid) (c : Color) (x y size : Z) :
  rect W H target -> fits W H x y size ->
  exists out, Decode target (QuadLeaf c) x y size = Ok out /\ rect W H out /\
    (forall i j, in_region x y size i j -> get out i j = Ok c) /\
    (forall i j, ~ in_region x y size i j -> get out i j = get target i j).
Proof.
  intros Hr Hfit. simpl.
  destruct (fill_spec W H target c x y size Hr Hfit) as (out & Hrun & Hro & Hcells).
  exists out. split; [assumption|]. split; [assumption|]. split.
  - intros i j Hin. rewrite Hcells, decide_True by assumption. reflexivity.
  - intros i j Hout. rewrite Hcells, decide_False by assumption. reflexivity.
Qed.

Lemma Decode_leaf_block_witness :
  rect 3 3 target3 /\ fits 3 3 1 1 2 /\
  exists out, Decode target3 (QuadLeaf far) 1 1 2 = Ok out /\ rect 3 3 out /\
    (forall i j, in_region 1 1 2 i j -> get out i j = Ok far) /\
    (forall i j, ~ in_region 1 1 2 i j -> get out i j = get target3 i j).
Proof.
  split; [rect_tac|]. split; [fits_tac|].
  apply (Decode_leaf_block 3 3 target3 far 1 1 2); [rect_tac | fits_tac].
Defined.

Lemma Decode_nothing (node : QuadTree) :
  forall (target : Grid) (x y size : Z),
  size <= 0 -> Decode target node x y size = Ok target.
Proof.
  induction node as [v | nw IHnw ne IHne se IHse sw IHsw]; intros target x y size Hs; simpl.
  - unfold fill. apply for_range_empty. lia.
  - assert (Hh : Z.quot size 2 <= 0).
    { destruct (Z.eq_dec size 0) as [->|Hne]; [reflexivity|].
      pose proof (Z.quot_opp_l size 2 ltac:(lia)) as Ho.
      pose proof (half_bounds (- size) ltac:(lia)) as Hb. lia. }
    rewrite IHnw by assumption. simpl. rewrite IHne by assumption. simpl.
    rewrite IHse by assumption. simpl. apply IHsw. assumption.
Qed.

(** X20: an internal node decoded with a side of 1 or less writes nothing:
    its quadrants have side 0, so whatever its subtrees hold is dropped
    silently and the target comes back unchanged, even a target too small
    for the region. *)
Theorem Decode_node_side_one (target : Grid) (nw ne se sw : QuadTree) (x y size : Z) :
  size <= 1 -> Decode target (QuadNode nw ne se sw) x y size = Ok target.
Proof.
  intros Hs. simpl.
  assert (Hh : Z.quot size 2 <= 0).
  { destruct (Z.eq_dec size 1) as [->|Hne]; [reflexivity|].
    destruct (Z.eq_dec size 0) as [->|Hne0]; [reflexivity|].
    pose proof (Z.quot_opp_l size 2 ltac:(lia)) as Ho.
    pose proof (half_bounds (- size) ltac:(lia)) as Hb. lia. }
  rewrite (Decode_nothing nw) by assumption. cbn [bind].
  rewrite (Decode_nothing ne) by assumption. cbn [bind].
  rewrite (Decode_nothing se) by assumption. cbn [bind].
  apply Decode_nothing. assumption.
Qed.

Lemma Decode_node_side_one_witness :
  1 <= 1 /\
  Decode target2 (QuadNode (QuadLeaf far) (QuadLeaf far) (QuadLeaf far) (QuadLeaf far))
         0 0 1 = Ok target2.
Proof.
  split; [lia|]. apply (Decode_node_side_one target2); lia.
Defined.

Lemma find_iter_ext {R : Type} (f h : Z -> outcome (option R)) (n : nat) :
  forall lo, (forall i, lo <= i < lo + Z.of_nat n -> f i = h i) ->
  find_iter lo n f = find_iter lo n h.
Proof.
  induction n as [|n IH]; intros lo Hfh; [reflexivity|]. simpl.
  rewrite (Hfh lo) by lia. destruct (h lo) as [[v|]|e]; simpl; try reflexivity.
  apply IH. intros i Hi. apply Hfh. lia.
Qed.

Lemma find_range_ext {R : Type} (f h : Z -> outcome (option R)) (lo hi : Z) :
  (forall i, lo <= i < hi -> f i = h i) -> find_range lo hi f = find_range lo hi h.
Proof. intros Hfh. unfold find_range. apply find_iter_ext. intros i Hi. apply Hfh. lia. Qed.

Lemma isUniform_agree (img1 img2 : Grid) (x y size tolerance : Z) :
  agree_on img1 img2 x y size ->
  isUniform img1 x y size tolerance = isUniform img2 x y size tolerance.
Proof.
  intros [Hcorner Hcells]. unfold isUniform. rewrite Hcorner.
  destruct (get img2 x y) as [ref|e]; simpl; [|reflexivity].
  f_equal. apply find_range_ext. intros j Hj. apply find_range_ext. intros i Hi.
  rewrite (Hcells i j) by (unfold in_region; lia). reflexivity.
Qed.

Lemma Encode_fuel_agree (img1 img2 : Grid) (fuel : nat) :
  forall x y size, agree_on img1 img2 x y size ->
  Encode_fuel fuel img1 x y size = Encode_fuel fuel img2 x y size.
Proof.
  induction fuel as [|fuel IH]; intros x y size Hag; [reflexivity|]. simpl.
  rewrite (isUniform_agree img1 img2 x y size default_tolerance Hag).
  destruct (isUniform img2 x y size default_tolerance) as [[|]|e] eqn:Hu; simpl;
    try reflexivity.
  - destruct Hag as [Hcorner _]. rewrite Hcorner. reflexivity.
  - assert (Hs : 2 <= size).
    { destruct (Z.le_gt_cases size 1) as [Hle|Hgt]; [|lia].
      exfalso. exact (isUniform_small _ _ _ _ _ Hle Hu). }
    pose proof (half_bounds size ltac:(lia)) as Hh.
    destruct Hag as [Hcorner Hcells].
    assert (Hsub : forall a c, x <= a -> y <= c ->
                     a + Z.quot size 2 <= x + size -> c + Z.quot size 2 <= y + size ->
                     agree_on img1 img2 a c (Z.quot size 2)).
    { intros a c Ha Hc Hax Hcy. split.
      - apply Hcells. unfold in_region. lia.
      - intros i j Hin. apply Hcells. unfold in_region in *. lia. }
    rewrite (IH x y) by (apply Hsub; lia).
    rewrite (IH (x + Z.quot size 2) y) by (apply Hsub; lia).
    rewrite (IH (x + Z.quot size 2) (y + Z.quot size 2)) by (apply Hsub; lia).
    rewrite (IH x (y + Z.quot size 2)) by (apply Hsub; lia).
    reflexivity.
Qed.

(** X21: [Encode] looks only at its region: two grids that hold the same
    thing at [(x, y)] and at every cell of the square of side [size] there
    are encoded to the same result, whatever they hold elsewhere. *)
Theorem Encode_local (img1 img2 : Grid) (x y size : Z) :
  get img1 x y = get img2 x y ->
  (forall i j, in_region x y size i j -> get img1 i j = get img2 i j) ->
  Encode img1 x y size = Encode img2 x y size.
Proof.
  intros Hcorner Hcells. unfold Encode. apply Encode_fuel_agree. split; assumption.
Qed.

Lemma Encode_local_witness :
  get grid_far 0 1 = get grid_near 0 1 /\
  (forall i j, in_region 0 1 1 i j -> get grid_far i j = get grid_near i j) /\
  Encode grid_far 0 1 1 = Encode grid_near 0 1 1.
Proof.
  assert (C : forall i j, in_region 0 1 1 i j -> get grid_far i j = get grid_near i j).
  { intros i j [Hi Hj]. assert (i = 0 /\ j = 1) as [-> ->] by lia. reflexivity. }
  split; [reflexivity|]. split; [exact C|].
  apply (Encode_local grid_far grid_near 0 1 1); [reflexivity | exact C].
Defined.
